(** * Customer management pages: list view and detail view

    A shallow embedding of the data-manipulation logic of
    [src/pages/CustomerList.tsx] and [src/pages/CustomerDetail.tsx]:
    the derived values (facets, filtered customers, pagination) and the
    event handlers that update the two React state collections.

    Conventions of the embedding.
    - A JavaScript string is a [string] (text is taken to be ASCII, so that
      [toLowerCase] is the ASCII lowering and the default sort order of
      [Array.prototype.sort] is [String.compare]).
    - A JavaScript array is a [list]; the array methods the pages use are
      defined in module [JS] with the semantics of the language standard.
    - A page number is a [Z]; an array length is a [nat].
    - A React component is a record of its [useState] cells; an event handler
      is a computation in the monad [Handler], which threads the component
      state and the [World] (system clock, emitted toasts, router location).
      State updaters queued by one handler run in order before the next
      render, so one handler is one state transition. *)

From Stdlib Require Import List String Ascii Bool ZArith Arith Lia.
From Stdlib Require Import QArith Qround.
From Stdlib Require Import Sorting.Sorted Sorting.Permutation Sorting.Mergesort.
From Stdlib Require Import Structures.Orders Structures.OrderedTypeEx.
From Stdlib Require Import Numbers.DecimalString Numbers.DecimalZ.
From Stdlib Require Import RelationClasses.
Import ListNotations.

Local Open Scope string_scope.
Local Open Scope Z_scope.
Local Open Scope list_scope.

(* ================================================================= *)
(** ** The JavaScript primitives used by the pages *)

Module JS.

(** [String.prototype.toLowerCase], on ASCII text. *)
Definition toLowerCase_char (c : ascii) : ascii :=
  let n := nat_of_ascii c in
  if (65 <=? n)%nat && (n <=? 90)%nat then ascii_of_nat (n + 32) else c.

Fixpoint toLowerCase (s : string) : string :=
  match s with
  | EmptyString => EmptyString
  | String c s' => String (toLowerCase_char c) (toLowerCase s')
  end.

(** [s.startsWith(t)]: the helper of [includes]. *)
Fixpoint startsWith (s t : string) {struct t} : bool :=
  match t, s with
  | EmptyString, _ => true
  | String _ _, EmptyString => false
  | String b t', String a s' => Ascii.eqb a b && startsWith s' t'
  end.

(** [s.includes(t)]: [t] occurs in [s] at some position. *)
Fixpoint includes (s t : string) : bool :=
  startsWith s t ||
  match s with
  | EmptyString => false
  | String _ s' => includes s' t
  end.

(** [Array.prototype.some]. *)
Definition some {A : Type} (p : A -> bool) (l : list A) : bool := existsb p l.

(** [Array.prototype.slice(start, end)], negative indices counting from the
    end of the array as the standard prescribes. *)
Definition slice {A : Type} (start end_ : Z) (l : list A) : list A :=
  let len := Z.of_nat (List.length l) in
  let k := if start <? 0 then Z.max (len + start) 0 else Z.min start len in
  let final := if end_ <? 0 then Z.max (len + end_) 0 else Z.min end_ len in
  let count := Z.max (final - k) 0 in
  firstn (Z.to_nat count) (skipn (Z.to_nat k) l).

(** [Math.ceil(a / b)] for integers [a], [b]. The quotient is a rational; for
    array lengths (below 2^32) the floating-point quotient rounds to the same
    ceiling. *)
Definition Math_ceil_div (a b : Z) : Z := Qceiling (inject_Z a / inject_Z b).

(** [new Set(xs)] followed by the spread [[...set]]: the elements of [xs] in
    order of first insertion, each once. *)
Definition Set_add (s : list string) (x : string) : list string :=
  if existsb (String.eqb x) s then s else s ++ [x].

Definition new_Set (xs : list string) : list string := fold_left Set_add xs [].

(** The default order of [Array.prototype.sort]: strings compared code unit by
    code unit. *)
Module StringOrder <: TotalLeBool.
Definition t := string.
Definition leb (a b : string) : bool := String.leb a b.
Definition leb_total : forall a1 a2, leb a1 a2 = true \/ leb a2 a1 = true :=
  String.leb_total.
End StringOrder.

Module StringSort := Sort StringOrder.

(** [Array.prototype.sort()] with no comparator. *)
Definition sort (l : list string) : list string := StringSort.sort l.

(** [Number.prototype.toString()] of an integer, in decimal. *)
Definition toString (n : Z) : string := NilZero.string_of_int (Z.to_int n).

End JS.

(* ================================================================= *)
(** ** The entities *)

(** A timestamp string as [Date.prototype.toISOString] renders it. The
    rendering of a time value (milliseconds since the epoch) is kept symbolic:
    it is injective, so the constructor loses nothing. *)
Inductive IsoString : Set := toISOString (ms : Z).

Definition getTime (s : IsoString) : Z := let (ms) := s in ms.

Module MockData.

(** Modelled from the spec: the type declaration [Customer] of
    [@/data/mockData], which the pages import and which is not part of the
    sources at hand. The fields are those of the data model (and those the
    pages read). *)
Record Customer : Set := mkCustomer {
  id : string;
  firstName : string;
  lastName : string;
  phoneNumber : string;
  createdAt : IsoString;
  updatedAt : IsoString
}.

(** Modelled from the spec: the type declaration [Address] of
    [@/data/mockData], likewise missing. The pages read [id], [customerId],
    [city], [state] and [isDefault]; the other free-text fields follow the
    data model. *)
Record Address : Set := mkAddress {
  addr_id : string;
  customerId : string;
  line1 : string;
  line2 : string;
  city : string;
  state : string;
  postalCode : string;
  country : string;
  isDefault : bool
}.

End MockData.
Import MockData.

(** The argument of the customer form's [onSave]:
    [Omit<Customer, 'id' | 'createdAt' | 'updatedAt'>]. A key the form leaves
    out of the object is [None], so the record covers partial data too. *)
Record CustomerData : Set := mkCustomerData {
  data_firstName : option string;
  data_lastName : option string;
  data_phoneNumber : option string
}.

(** The argument of the address form's [onSave]: [Omit<Address, 'id'>]. *)
Record AddressData : Set := mkAddressData {
  data_customerId : string;
  data_line1 : string;
  data_line2 : string;
  data_city : string;
  data_state : string;
  data_postalCode : string;
  data_country : string;
  data_isDefault : bool
}.

Definition or_else {A : Type} (o : option A) (d : A) : A :=
  match o with Some x => x | None => d end.

(** [{ ...c, ...customerData, updatedAt: now }] *)
Definition spread_customer_update (c : Customer) (d : CustomerData)
  (now : IsoString) : Customer :=
  {| id := id c;
     firstName := or_else (data_firstName d) (firstName c);
     lastName := or_else (data_lastName d) (lastName c);
     phoneNumber := or_else (data_phoneNumber d) (phoneNumber c);
     createdAt := createdAt c;
     updatedAt := now |}.

(** [{ id, ...customerData, createdAt, updatedAt }]; a key the data leaves out
    stays undefined, rendered here as the empty string. *)
Definition spread_customer_new (new_id : string) (d : CustomerData)
  (created updated : IsoString) : Customer :=
  {| id := new_id;
     firstName := or_else (data_firstName d) "";
     lastName := or_else (data_lastName d) "";
     phoneNumber := or_else (data_phoneNumber d) "";
     createdAt := created;
     updatedAt := updated |}.

(** [{ ...addr, ...addressData }] *)
Definition spread_address_update (a : Address) (d : AddressData) : Address :=
  {| addr_id := addr_id a;
     customerId := data_customerId d;
     line1 := data_line1 d;
     line2 := data_line2 d;
     city := data_city d;
     state := data_state d;
     postalCode := data_postalCode d;
     country := data_country d;
     isDefault := data_isDefault d |}.

(** [{ id: Date.now().toString(), ...addressData }] *)
Definition spread_address_new (new_id : string) (d : AddressData) : Address :=
  spread_address_update
    {| addr_id := new_id; customerId := ""; line1 := ""; line2 := "";
       city := ""; state := ""; postalCode := ""; country := "";
       isDefault := false |} d.

(** [{ ...addr, isDefault: b }] *)
Definition with_isDefault (a : Address) (b : bool) : Address :=
  {| addr_id := addr_id a;
     customerId := customerId a;
     line1 := line1 a;
     line2 := line2 a;
     city := city a;
     state := state a;
     postalCode := postalCode a;
     country := country a;
     isDefault := b |}.

(* ================================================================= *)
(** ** The world around a component, and event handlers *)

(** The argument of [toast]. *)
Record Toast : Set := mkToast {
  title : string;
  description : string;
  destructive : bool
}.

(** What a handler can reach besides the component state: the system clock
    (its successive readings, in the order the program takes them), the toasts
    shown so far, and the route last navigated to. *)
Record World : Type := mkWorld {
  clock : nat -> Z;
  reads : nat;
  toasts : list Toast;
  location : option string
}.

(** A handler over component state [S]. *)
Definition Handler (S A : Type) : Type := S -> World -> A * S * World.

Definition ret {S A : Type} (a : A) : Handler S A := fun s w => (a, s, w).

Definition bind {S A B : Type} (m : Handler S A) (k : A -> Handler S B)
  : Handler S B :=
  fun s w => let '(a, s', w') := m s w in k a s' w'.

Declare Scope handler_scope.
Delimit Scope handler_scope with handler.
Notation "x <- m ;; k" := (bind m (fun x => k))
  (at level 61, m at next level, right associativity) : handler_scope.
Notation "m ;; k" := (bind m (fun _ => k))
  (at level 61, right associativity) : handler_scope.
Local Open Scope handler_scope.

(** [Date.now()] and [new Date()] alike: one reading of the clock. *)
Definition Date_now {S : Type} : Handler S Z :=
  fun s w =>
    (clock w (reads w), s,
     {| clock := clock w; reads := Datatypes.S (reads w);
        toasts := toasts w; location := location w |}).

Definition new_Date {S : Type} : Handler S Z := Date_now.

Definition toast {S : Type} (t : Toast) : Handler S unit :=
  fun s w =>
    (tt, s,
     {| clock := clock w; reads := reads w;
        toasts := toasts w ++ [t]; location := location w |}).

Definition navigate {S : Type} (path : string) : Handler S unit :=
  fun s w =>
    (tt, s,
     {| clock := clock w; reads := reads w;
        toasts := toasts w; location := Some path |}).

Definition gets {S A : Type} (f : S -> A) : Handler S A :=
  fun s w => (f s, s, w).

Definition setState {S : Type} (f : S -> S) : Handler S unit :=
  fun s w => (tt, f s, w).

(** [prev.map(f)] for a callback [f] that may read the clock. *)
Fixpoint mapM {S A B : Type} (f : A -> Handler S B) (l : list A)
  : Handler S (list B) :=
  match l with
  | [] => ret []
  | x :: l' => y <- f x ;; ys <- mapM f l' ;; ret (y :: ys)
  end.

(** The state and the world a handler leaves behind. *)
Definition exec {S : Type} (h : Handler S unit) (s : S) (w : World)
  : S * World :=
  let '(_, s', w') := h s w in (s', w').

(** The callback shared by both pages' customer update:
    [c => c.id === target ? { ...c, ...customerData, updatedAt: new
    Date().toISOString() } : c]. *)
Definition update_matching {S : Type} (target : string) (d : CustomerData)
  (c : Customer) : Handler S Customer :=
  if (id c =? target)%string
  then now <- new_Date ;; ret (spread_customer_update c d (toISOString now))
  else ret c.

(* ================================================================= *)
(** ** The detail page *)

Module CustomerDetail.

Record State : Set := mkState {
  customers : list Customer;
  addresses : list Address;
  showAddressForm : bool;
  showCustomerForm : bool;
  editingAddress : option Address
}.

Definition setCustomers (v : list Customer) : Handler State unit :=
  setState (fun s => mkState v (addresses s) (showAddressForm s)
                       (showCustomerForm s) (editingAddress s)).

Definition setAddresses (f : list Address -> list Address)
  : Handler State unit :=
  setState (fun s => mkState (customers s) (f (addresses s))
                       (showAddressForm s) (showCustomerForm s)
                       (editingAddress s)).

Definition setShowAddressForm (b : bool) : Handler State unit :=
  setState (fun s => mkState (customers s) (addresses s) b
                       (showCustomerForm s) (editingAddress s)).

Definition setShowCustomerForm (b : bool) : Handler State unit :=
  setState (fun s => mkState (customers s) (addresses s) (showAddressForm s)
                       b (editingAddress s)).

Definition setEditingAddress (a : option Address) : Handler State unit :=
  setState (fun s => mkState (customers s) (addresses s) (showAddressForm s)
                       (showCustomerForm s) a).

(** The component mounts on the mock data. *)
Definition init (mockCustomers : list Customer) (mockAddresses : list Address)
  : State :=
  mkState mockCustomers mockAddresses false false None.

(** [customers.find(c => c.id === id)] for the route parameter [id]. *)
Definition customer (route_id : string) (s : State) : option Customer :=
  find (fun c => (id c =? route_id)%string) (customers s).

Definition customerAddresses (route_id : string) (s : State) : list Address :=
  filter (fun a => (customerId a =? route_id)%string) (addresses s).

(** The handlers exist on the branch where the customer was found; they close
    over it. *)
Section Handlers.
Variable customer : Customer.

Definition handleUpdateCustomer (customerData : CustomerData)
  : Handler State unit :=
  prev <- gets customers ;;
  next <- mapM (update_matching (id customer) customerData) prev ;;
  setCustomers next ;;
  setShowCustomerForm false ;;
  toast (mkToast "Customer Updated"
           "Customer information has been successfully updated." false).

(** [confirmed] is the answer of [window.confirm]. *)
Definition handleDeleteCustomer (confirmed : bool) : Handler State unit :=
  if confirmed
  then
    toast (mkToast "Customer Deleted"
             "Customer and all associated addresses have been deleted." true) ;;
    navigate "/"
  else ret tt.

Definition handleSaveAddress (addressData : AddressData)
  : Handler State unit :=
  editing <- gets editingAddress ;;
  match editing with
  | Some e =>
      setAddresses
        (map (fun addr =>
                if (addr_id addr =? addr_id e)%string
                then spread_address_update addr addressData
                else addr)) ;;
      toast (mkToast "Address Updated"
               "Address has been successfully updated." false)
  | None =>
      t <- Date_now ;;
      let newAddress := spread_address_new (JS.toString t) addressData in
      setAddresses (fun prev => prev ++ [newAddress]) ;;
      toast (mkToast "Address Added"
               "New address has been successfully added." false)
  end ;;
  setShowAddressForm false ;;
  setEditingAddress None.

Definition handleEditAddress (address : Address) : Handler State unit :=
  setEditingAddress (Some address) ;;
  setShowAddressForm true.

Definition handleDeleteAddress (confirmed : bool) (addressId : string)
  : Handler State unit :=
  if confirmed
  then
    setAddresses
      (filter (fun addr => negb (addr_id addr =? addressId)%string)) ;;
    toast (mkToast "Address Deleted"
             "Address has been successfully deleted." true)
  else ret tt.

(** The sweep of [handleSetDefaultAddress]. *)
Definition sweep_default (addressId : string) (prev : list Address)
  : list Address :=
  map (fun addr =>
         with_isDefault addr
           (if (customerId addr =? id customer)%string
            then (addr_id addr =? addressId)%string
            else isDefault addr))
      prev.

Definition handleSetDefaultAddress (addressId : string)
  : Handler State unit :=
  setAddresses (sweep_default addressId) ;;
  toast (mkToast "Default Address Updated"
           "Default address has been successfully updated." false).

End Handlers.

End CustomerDetail.

(* ================================================================= *)
(** ** The list page *)

Module CustomerList.

Record State : Set := mkState {
  customers : list Customer;
  addresses : list Address;
  searchTerm : string;
  cityFilter : string;
  stateFilter : string;
  showCustomerForm : bool;
  editingCustomer : option Customer;
  currentPage : Z
}.

Definition itemsPerPage : Z := 6.

Definition setCustomers (f : list Customer -> list Customer)
  : Handler State unit :=
  setState (fun s => mkState (f (customers s)) (addresses s) (searchTerm s)
                       (cityFilter s) (stateFilter s) (showCustomerForm s)
                       (editingCustomer s) (currentPage s)).

Definition setAddresses (f : list Address -> list Address)
  : Handler State unit :=
  setState (fun s => mkState (customers s) (f (addresses s)) (searchTerm s)
                       (cityFilter s) (stateFilter s) (showCustomerForm s)
                       (editingCustomer s) (currentPage s)).

Definition setSearchTerm (v : string) : Handler State unit :=
  setState (fun s => mkState (customers s) (addresses s) v
                       (cityFilter s) (stateFilter s) (showCustomerForm s)
                       (editingCustomer s) (currentPage s)).

Definition setCityFilter (v : string) : Handler State unit :=
  setState (fun s => mkState (customers s) (addresses s) (searchTerm s)
                       v (stateFilter s) (showCustomerForm s)
                       (editingCustomer s) (currentPage s)).

Definition setStateFilter (v : string) : Handler State unit :=
  setState (fun s => mkState (customers s) (addresses s) (searchTerm s)
                       (cityFilter s) v (showCustomerForm s)
                       (editingCustomer s) (currentPage s)).

Definition setShowCustomerForm (b : bool) : Handler State unit :=
  setState (fun s => mkState (customers s) (addresses s) (searchTerm s)
                       (cityFilter s) (stateFilter s) b
                       (editingCustomer s) (currentPage s)).

Definition setEditingCustomer (c : option Customer) : Handler State unit :=
  setState (fun s => mkState (customers s) (addresses s) (searchTerm s)
                       (cityFilter s) (stateFilter s) (showCustomerForm s)
                       c (currentPage s)).

Definition setCurrentPage (f : Z -> Z) : Handler State unit :=
  setState (fun s => mkState (customers s) (addresses s) (searchTerm s)
                       (cityFilter s) (stateFilter s) (showCustomerForm s)
                       (editingCustomer s) (f (currentPage s))).

(** The component mounts on the mock data, with no filter, on page 1. *)
Definition init (mockCustomers : list Customer) (mockAddresses : list Address)
  : State :=
  mkState mockCustomers mockAddresses "" "" "" false None 1.

(** *** Derived values *)

(** [[...new Set(addresses.map(addr => addr.city))].sort()] *)
Definition cities (addresses : list Address) : list string :=
  JS.sort (JS.new_Set (map city addresses)).

(** [[...new Set(addresses.map(addr => addr.state))].sort()] *)
Definition states (addresses : list Address) : list string :=
  JS.sort (JS.new_Set (map state addresses)).

Definition matchesSearch (searchTerm : string) (customer : Customer) : bool :=
  (searchTerm =? "")%string
  || JS.includes (JS.toLowerCase (firstName customer))
                 (JS.toLowerCase searchTerm)
  || JS.includes (JS.toLowerCase (lastName customer))
                 (JS.toLowerCase searchTerm)
  || JS.includes (phoneNumber customer) searchTerm.

Definition getCustomerAddresses (addresses : list Address)
  (customerId' : string) : list Address :=
  filter (fun addr => (customerId addr =? customerId')%string) addresses.

Definition matchesCity (addresses : list Address) (cityFilter : string)
  (customer : Customer) : bool :=
  let customerAddresses := getCustomerAddresses addresses (id customer) in
  (cityFilter =? "")%string || (cityFilter =? "all")%string
  || JS.some (fun addr => (city addr =? cityFilter)%string) customerAddresses.

Definition matchesState (addresses : list Address) (stateFilter : string)
  (customer : Customer) : bool :=
  let customerAddresses := getCustomerAddresses addresses (id customer) in
  (stateFilter =? "")%string || (stateFilter =? "all")%string
  || JS.some (fun addr => (state addr =? stateFilter)%string) customerAddresses.

Definition filteredCustomers (customers : list Customer)
  (addresses : list Address) (searchTerm cityFilter stateFilter : string)
  : list Customer :=
  filter (fun customer =>
            matchesSearch searchTerm customer
            && matchesCity addresses cityFilter customer
            && matchesState addresses stateFilter customer)
         customers.

(** [Math.ceil(filteredCustomers.length / itemsPerPage)] *)
Definition totalPages {A : Type} (filtered : list A) : Z :=
  JS.Math_ceil_div (Z.of_nat (List.length filtered)) itemsPerPage.

(** [filteredCustomers.slice((currentPage - 1) * itemsPerPage,
                             currentPage * itemsPerPage)] *)
Definition paginatedCustomers {A : Type} (filtered : list A) (currentPage : Z)
  : list A :=
  JS.slice ((currentPage - 1) * itemsPerPage) (currentPage * itemsPerPage)
           filtered.

Definition filtered_of (s : State) : list Customer :=
  filteredCustomers (customers s) (addresses s) (searchTerm s) (cityFilter s)
                    (stateFilter s).

Definition paginated_of (s : State) : list Customer :=
  paginatedCustomers (filtered_of s) (currentPage s).

(** *** Handlers *)

Definition handleSaveCustomer (customerData : CustomerData)
  : Handler State unit :=
  editing <- gets editingCustomer ;;
  match editing with
  | Some e =>
      prev <- gets customers ;;
      next <- mapM (update_matching (id e) customerData) prev ;;
      setCustomers (fun _ => next) ;;
      toast (mkToast "Customer Updated"
               "Customer information has been successfully updated." false)
  | None =>
      t_id <- Date_now ;;
      t_created <- new_Date ;;
      t_updated <- new_Date ;;
      let newCustomer :=
        spread_customer_new (JS.toString t_id) customerData
          (toISOString t_created) (toISOString t_updated) in
      setCustomers (fun prev => newCustomer :: prev) ;;
      toast (mkToast "Customer Created"
               "New customer has been successfully added." false)
  end ;;
  setShowCustomerForm false ;;
  setEditingCustomer None.

Definition handleEditCustomer (customer : Customer) : Handler State unit :=
  setEditingCustomer (Some customer) ;;
  setShowCustomerForm true.

(** [confirmed] is the answer of [window.confirm]. *)
Definition handleDeleteCustomer (confirmed : bool) (customerId' : string)
  : Handler State unit :=
  if confirmed
  then
    setCustomers
      (filter (fun customer => negb (id customer =? customerId')%string)) ;;
    setAddresses
      (filter (fun addr => negb (customerId addr =? customerId')%string)) ;;
    toast (mkToast "Customer Deleted"
             "Customer and all associated addresses have been deleted." true)
  else ret tt.

Definition handleClearFilters : Handler State unit :=
  setSearchTerm "" ;;
  setCityFilter "" ;;
  setStateFilter "" ;;
  setCurrentPage (fun _ => 1).

(** *** The user's actions, as the page binds them *)

Inductive Event : Set :=
| ClickAddCustomer
| FormSave (customerData : CustomerData)
| FormCancel
| SearchChange (v : string)
| CityFilterChange (v : string)
| StateFilterChange (v : string)
| ClearFilters
| CardEdit (customer : Customer)
| CardDelete (customer : Customer) (confirmed : bool)
| ClickPrevious
| ClickPage (page : Z)
| ClickNext.

(** The pagination bar is rendered when the current page shows something and
    there is more than one page. *)
Definition pagination_rendered (s : State) : bool :=
  negb (Nat.eqb (List.length (paginated_of s)) 0)
  && (1 <? totalPages (filtered_of s)).

Definition customer_eqb (a b : Customer) : bool :=
  (id a =? id b)%string && (firstName a =? firstName b)%string
  && (lastName a =? lastName b)%string
  && (phoneNumber a =? phoneNumber b)%string
  && (getTime (createdAt a) =? getTime (createdAt b))
  && (getTime (updatedAt a) =? getTime (updatedAt b)).

(** Whether the rendered page offers the action. *)
Definition enabled (s : State) (e : Event) : bool :=
  match e with
  | ClickAddCustomer | SearchChange _ | CityFilterChange _
  | StateFilterChange _ | ClearFilters => true
  | FormSave _ | FormCancel => showCustomerForm s
  | CardEdit c | CardDelete c _ => existsb (customer_eqb c) (paginated_of s)
  | ClickPrevious => pagination_rendered s && negb (currentPage s =? 1)
  | ClickPage page =>
      pagination_rendered s && (1 <=? page)
      && (page <=? totalPages (filtered_of s))
  | ClickNext =>
      pagination_rendered s
      && negb (currentPage s =? totalPages (filtered_of s))
  end.

(** The handler bound to each action. [totalPages] is the value of the
    render the click happens on. *)
Definition handle (e : Event) : Handler State unit :=
  match e with
  | ClickAddCustomer => setShowCustomerForm true
  | FormSave customerData => handleSaveCustomer customerData
  | FormCancel => setShowCustomerForm false ;; setEditingCustomer None
  | SearchChange v => setSearchTerm v
  | CityFilterChange v => setCityFilter v
  | StateFilterChange v => setStateFilter v
  | ClearFilters => handleClearFilters
  | CardEdit c => handleEditCustomer c
  | CardDelete c confirmed => handleDeleteCustomer confirmed (id c)
  | ClickPrevious => setCurrentPage (fun prev => Z.max 1 (prev - 1))
  | ClickPage page => setCurrentPage (fun _ => page)
  | ClickNext =>
      total <- gets (fun s => totalPages (filtered_of s)) ;;
      setCurrentPage (fun prev => Z.min total (prev + 1))
  end.

(** One user action on a rendered page. *)
Definition step (sw : State * World) (e : Event) (sw' : State * World)
  : Prop :=
  enabled (fst sw) e = true /\ exec (handle e) (fst sw) (snd sw) = sw'.

(** The view states the page can be in, from its mount on the mock data. *)
Inductive reachable (mockCustomers : list Customer)
  (mockAddresses : list Address) : State * World -> Prop :=
| reach_init : forall w,
    reachable mockCustomers mockAddresses
      (init mockCustomers mockAddresses, w)
| reach_step : forall sw e sw',
    reachable mockCustomers mockAddresses sw ->
    step sw e sw' ->
    reachable mockCustomers mockAddresses sw'.

End CustomerList.

(* ================================================================= *)
(** ** The vocabulary of the specification *)

(** [t] occurs in [s]. *)
Definition contains (s t : string) : Prop :=
  exists pre post : string, s = (pre ++ t ++ post)%string.

(** [t] occurs in [s] when letter case is ignored. *)
Definition contains_ci (s t : string) : Prop :=
  contains (JS.toLowerCase s) (JS.toLowerCase t).

(** [a] is one of the addresses of customer [c]. *)
Definition owned_by (addresses : list Address) (c : Customer) (a : Address)
  : Prop :=
  In a addresses /\ customerId a = id c.

(** The search condition in the words of the filtering contract: the term is
    contained, whatever the case, in one of the three text fields. *)
Definition search_as_specified (term : string) (c : Customer) : Prop :=
  term = ""
  \/ contains_ci (firstName c) term
  \/ contains_ci (lastName c) term
  \/ contains_ci (phoneNumber c) term.

(** The search condition with the phone number compared as it is written. *)
Definition search_phone_verbatim (term : string) (c : Customer) : Prop :=
  term = ""
  \/ contains_ci (firstName c) term
  \/ contains_ci (lastName c) term
  \/ contains (phoneNumber c) term.

Definition city_condition (addresses : list Address) (cityFilter : string)
  (c : Customer) : Prop :=
  cityFilter = "" \/ cityFilter = "all"
  \/ exists a, owned_by addresses c a /\ city a = cityFilter.

Definition state_condition (addresses : list Address) (stateFilter : string)
  (c : Customer) : Prop :=
  stateFilter = "" \/ stateFilter = "all"
  \/ exists a, owned_by addresses c a /\ state a = stateFilter.

(** The conjunction of the contract, as the specification words it. *)
Definition filter_as_specified (addresses : list Address)
  (term cityFilter stateFilter : string) (c : Customer) : Prop :=
  search_as_specified term c
  /\ city_condition addresses cityFilter c
  /\ state_condition addresses stateFilter c.

(** The same conjunction with the verbatim phone comparison. *)
Definition filter_phone_verbatim (addresses : list Address)
  (term cityFilter stateFilter : string) (c : Customer) : Prop :=
  search_phone_verbatim term c
  /\ city_condition addresses cityFilter c
  /\ state_condition addresses stateFilter c.

(** [r] is exactly the subsequence of [l] of the elements satisfying [P], in
    the order of [l]. *)
Inductive selects {A : Type} (P : A -> Prop) : list A -> list A -> Prop :=
| selects_nil : selects P [] []
| selects_keep : forall x l r,
    P x -> selects P l r -> selects P (x :: l) (x :: r)
| selects_skip : forall x l r,
    ~ P x -> selects P l r -> selects P (x :: l) r.

(** The default addresses of a customer. *)
Definition defaults_of (cid : string) (addrs : list Address) : list Address :=
  filter (fun a => (customerId a =? cid)%string && isDefault a) addrs.

(** The addresses of a customer that carry a given id. *)
Definition owned_with_id (cid addressId : string) (addrs : list Address)
  : list Address :=
  filter (fun a => (customerId a =? cid)%string
                   && (addr_id a =? addressId)%string) addrs.

(** [addressId] identifies an address of the customer: among the customer's
    addresses exactly one carries it. *)
Definition identifies (cid addressId : string) (addrs : list Address) : Prop :=
  List.length (owned_with_id cid addressId addrs) = 1%nat.

(** Strictly ascending in the order of [Array.prototype.sort]: sorted and
    duplicate-free at once. *)
Definition ascending (l : list string) : Prop :=
  StronglySorted (fun a b => (a <? b)%string = true) l.

(** [n] is the ceiling of [len / 6]. *)
Definition is_page_count (len n : Z) : Prop :=
  6 * (n - 1) < len <= 6 * n.

(** [c'] is [c] with [d] merged in and [updatedAt] refreshed to [now]; nothing
    else differs. *)
Definition merged (c : Customer) (d : CustomerData) (now : Z) (c' : Customer)
  : Prop :=
  id c' = id c
  /\ createdAt c' = createdAt c
  /\ updatedAt c' = toISOString now
  /\ firstName c' = or_else (data_firstName d) (firstName c)
  /\ lastName c' = or_else (data_lastName d) (lastName c)
  /\ phoneNumber c' = or_else (data_phoneNumber d) (phoneNumber c).

(** What [updateCustomer(target, d)] may do to a collection, run in world [w]:
    every customer stays at its position; the ones with another id are the
    same entities; the ones with the id are merged, with a reading the clock
    gives from [w] on; with no such id nothing changes. *)
Definition update_effect (target : string) (d : CustomerData) (w : World)
  (prev next : list Customer) : Prop :=
  List.length next = List.length prev
  /\ (forall i c, nth_error prev i = Some c -> id c <> target ->
        nth_error next i = Some c)
  /\ (forall i c, nth_error prev i = Some c -> id c = target ->
        exists k c', (reads w <= k)%nat
                     /\ nth_error next i = Some c'
                     /\ merged c d (clock w k) c')
  /\ ((forall c, In c prev -> id c <> target) -> next = prev).

(** A world that differs from [w] only by later readings. *)
Definition later_world (w w' : World) : Prop :=
  clock w' = clock w /\ (reads w <= reads w')%nat
  /\ toasts w' = toasts w /\ location w' = location w.

(** The world after one reading of the clock. *)
Definition tick (w : World) : World :=
  {| clock := clock w; reads := Datatypes.S (reads w);
     toasts := toasts w; location := location w |}.

(** The clock never runs backwards. *)
Definition monotone (w : World) : Prop :=
  forall i j, (i <= j)%nat -> clock w i <= clock w j.

(** The state and world after a handler. *)
Definition after {S : Type} (h : Handler S unit) (s : S) (w : World) : S :=
  fst (exec h s w).

Definition world_after {S : Type} (h : Handler S unit) (s : S) (w : World)
  : World :=
  snd (exec h s w).

(* ================================================================= *)
(** ** What the pages render from their state *)

(** [Array.from({ length }, (_, i) => f(i))] *)
Definition Array_from {A : Type} (length : Z) (f : Z -> A) : list A :=
  map (fun i => f (Z.of_nat i)) (seq 0 (Z.to_nat length)).

(** The numbered buttons of the pagination bar:
    [Array.from({ length: totalPages }, (_, i) => i + 1)]. *)
Definition page_buttons (totalPages : Z) : list Z :=
  Array_from totalPages (fun i => i + 1).

(** The list page shows the "No customers found" card in place of the grid
    when [paginatedCustomers.length > 0] fails. *)
Definition shows_empty_state (s : CustomerList.State) : bool :=
  negb (0 <? Z.of_nat (List.length (CustomerList.paginated_of s))).

(* ================================================================= *)
(** ** Invariants and conditions used below *)

(** Every address references a customer of the collection. *)
Definition no_orphans (customers : list Customer) (addresses : list Address)
  : Prop :=
  forall a, In a addresses -> exists c, In c customers /\ id c = customerId a.

(** Every customer was created no later than it was last updated, and no
    timestamp lies after [now]. *)
Definition timestamps_ok (now : Z) (customers : list Customer) : Prop :=
  forall c, In c customers ->
            getTime (createdAt c) <= getTime (updatedAt c) <= now.



(** The customers of a collection that carry a given id. *)
Definition with_id (cid : string) (customers : list Customer)
  : list Customer :=
  filter (fun c => (id c =? cid)%string) customers.

(* ================================================================= *)
(** ** Sample data *)

Definition vanity_customer : Customer :=
  mkCustomer "7" "Asha" "Rao" "1-800-FLOWERS" (toISOString 0) (toISOString 0).

Definition asha : Customer :=
  mkCustomer "1" "Asha" "Rao" "9990001111"
    (toISOString 1700000000000) (toISOString 1700000000000).

Definition ravi : Customer :=
  mkCustomer "2" "Ravi" "Smith" "9990002222"
    (toISOString 1700000000500) (toISOString 1700000000900).

Definition pune : Address :=
  mkAddress "a1" "1" "12 MG Road" "" "Pune" "Maharashtra" "411001" "India"
    true.

Definition mumbai : Address :=
  mkAddress "a2" "1" "4 Marine Drive" "" "Mumbai" "Maharashtra" "400001"
    "India" false.

Definition delhi : Address :=
  mkAddress "a3" "2" "7 Lodhi Road" "" "Delhi" "Delhi" "110003" "India" true.

Definition nagpur_data : AddressData :=
  mkAddressData "1" "9 Civil Lines" "" "Nagpur" "Maharashtra" "440001" "India"
    true.

Definition rename_data : CustomerData :=
  mkCustomerData (Some "Aasha") None None.

Definition new_customer_data : CustomerData :=
  mkCustomerData (Some "Meera") (Some "Iyer") (Some "9990003333").

(** A clock that has advanced by one millisecond at every reading. *)
Definition ticking_world : World :=
  mkWorld (fun n => 1700000001000 + Z.of_nat n) 0 [] None.

Definition thirteen : list Z := [1; 2; 3; 4; 5; 6; 7; 8; 9; 10; 11; 12; 13].

(** Seven customers without addresses: enough for a second page. *)
Definition seven_customers : list Customer :=
  map (fun n => mkCustomer (JS.toString (Z.of_nat n)) "Customer" "Seven"
                  "0000000000" (toISOString 0) (toISOString 0))
      (seq 1 7).

Definition seven_list : CustomerList.State :=
  CustomerList.init seven_customers [].

Definition sample_detail : CustomerDetail.State :=
  CustomerDetail.init [asha; ravi] [pune; mumbai; delhi].

Definition sample_list : CustomerList.State :=
  CustomerList.init [asha; ravi] [pune; mumbai; delhi].

(* ================================================================= *)
(** ** Facts about the primitives *)

Section StringFacts.

Lemma startsWith_iff (s t : string) :
  JS.startsWith s t = true <-> exists post : string, s = (t ++ post)%string.
Proof.
  revert s. induction t as [|b t IH]; intros s; simpl.
  - split; [intros _; exists s; reflexivity | reflexivity].
  - destruct s as [|a s].
    + split; [discriminate | intros [post H]; discriminate].
    + rewrite andb_true_iff, IH. split.
      * intros [Hab [post ->]]. apply Ascii.eqb_eq in Hab. subst b.
        exists post. reflexivity.
      * intros [post H]. injection H as -> ->. split.
        -- apply Ascii.eqb_refl.
        -- exists post. reflexivity.
Qed.

Lemma includes_iff (s t : string) :
  JS.includes s t = true <-> contains s t.
Proof.
  unfold contains. induction s as [|a s IH].
  - simpl. rewrite orb_false_r, startsWith_iff. split.
    + intros [post H]. exists EmptyString, post. exact H.
    + intros [pre [post H]]. destruct pre as [|c pre]; [|discriminate].
      exists post. exact H.
  - cbn [JS.includes]. rewrite orb_true_iff, startsWith_iff, IH. split.
    + intros [[post H] | [pre [post H]]].
      * exists EmptyString, post. exact H.
      * exists (String a pre), post. simpl. now rewrite H.
    + intros [pre [post H]]. destruct pre as [|c pre].
      * left. exists post. exact H.
      * right. simpl in H. injection H as _ H. exists pre, post. exact H.
Qed.

Lemma string_lt_trans (a b c : string) :
  (a <? b)%string = true -> (b <? c)%string = true -> (a <? c)%string = true.
Proof.
  unfold String.ltb. intros Hab Hbc.
  destruct (a ?= b)%string eqn:Eab; try discriminate.
  destruct (b ?= c)%string eqn:Ebc; try discriminate.
  apply String_as_OT.cmp_lt in Eab, Ebc.
  pose proof (String_as_OT.lt_trans _ _ _ Eab Ebc) as Hac.
  apply String_as_OT.cmp_lt in Hac. unfold String_as_OT.cmp in Hac.
  now rewrite Hac.
Qed.

Lemma string_ltb_irrefl (a : string) : (a <? a)%string = false.
Proof.
  unfold String.ltb.
  assert (H : (a ?= a)%string = Eq) by (apply String_as_OT.cmp_eq; reflexivity).
  now rewrite H.
Qed.

Lemma string_leb_trans : Transitive (fun a b => is_true (String.leb a b)).
Proof.
  intros a b c. unfold is_true, String.leb. intros Hab Hbc.
  destruct (a ?= b)%string eqn:Eab; try discriminate.
  - apply String_as_OT.cmp_eq in Eab. subst b. exact Hbc.
  - destruct (b ?= c)%string eqn:Ebc; try discriminate.
    + apply String_as_OT.cmp_eq in Ebc. subst c. now rewrite Eab.
    + apply String_as_OT.cmp_lt in Eab, Ebc.
      pose proof (String_as_OT.lt_trans _ _ _ Eab Ebc) as Hac.
      apply String_as_OT.cmp_lt in Hac. unfold String_as_OT.cmp in Hac.
      now rewrite Hac.
Qed.

Lemma string_leb_neq_ltb (a b : string) :
  String.leb a b = true -> a <> b -> (a <? b)%string = true.
Proof.
  unfold String.leb, String.ltb. intros H Hne.
  destruct (a ?= b)%string eqn:E; try discriminate; [|reflexivity].
  apply String_as_OT.cmp_eq in E. contradiction.
Qed.

End StringFacts.

Section ListFacts.
Context {A : Type}.

Lemma filter_selects (P : A -> Prop) (p : A -> bool) (l : list A) :
  (forall x, p x = true <-> P x) -> selects P l (filter p l).
Proof.
  intros Hp. induction l as [|x l IH]; simpl.
  - constructor.
  - destruct (p x) eqn:E.
    + apply selects_keep; [now apply Hp | exact IH].
    + apply selects_skip; [|exact IH].
      intros HP. apply Hp in HP. congruence.
Qed.

Lemma selects_unique (P : A -> Prop) (l r1 r2 : list A) :
  selects P l r1 -> selects P l r2 -> r1 = r2.
Proof.
  intros H1. revert r2. induction H1; intros r2 H2; inversion H2; subst;
    try reflexivity; try contradiction.
  - f_equal. now apply IHselects.
  - now apply IHselects.
Qed.

Lemma filter_all_true (p : A -> bool) (l : list A) :
  (forall x, In x l -> p x = true) -> filter p l = l.
Proof.
  induction l as [|x l IH]; simpl; intros H; [reflexivity|].
  rewrite (H x (or_introl eq_refl)). f_equal. apply IH.
  intros y Hy. apply H. now right.
Qed.

Lemma filter_none (p : A -> bool) (l : list A) :
  (forall x, In x l -> p x = false) -> filter p l = [].
Proof.
  induction l as [|x l IH]; simpl; intros H; [reflexivity|].
  rewrite (H x (or_introl eq_refl)). apply IH.
  intros y Hy. apply H. now right.
Qed.

End ListFacts.

(* ================================================================= *)
(** ** Filtering *)

Section Filtering.
Variable addresses : list Address.

Lemma some_owned_iff (p : Address -> bool) (c : Customer) :
  JS.some p (CustomerList.getCustomerAddresses addresses (id c)) = true
  <-> exists a, owned_by addresses c a /\ p a = true.
Proof.
  unfold JS.some, CustomerList.getCustomerAddresses, owned_by.
  rewrite existsb_exists. split.
  - intros [a [Hin Hp]]. apply filter_In in Hin. destruct Hin as [Hin Hc].
    apply String.eqb_eq in Hc. exists a. auto.
  - intros [a [[Hin Hc] Hp]]. exists a. split; [|exact Hp].
    apply filter_In. split; [exact Hin|]. now apply String.eqb_eq.
Qed.

Lemma matchesSearch_iff (term : string) (c : Customer) :
  CustomerList.matchesSearch term c = true <-> search_phone_verbatim term c.
Proof.
  unfold CustomerList.matchesSearch, search_phone_verbatim, contains_ci.
  rewrite !orb_true_iff, String.eqb_eq, !includes_iff. tauto.
Qed.

Lemma matchesCity_iff (f : string) (c : Customer) :
  CustomerList.matchesCity addresses f c = true
  <-> city_condition addresses f c.
Proof.
  unfold CustomerList.matchesCity, city_condition.
  rewrite !orb_true_iff, !String.eqb_eq, some_owned_iff.
  split.
  - intros [[H | H] | [a [Ho Hc]]]; auto.
    right; right. exists a. apply String.eqb_eq in Hc. auto.
  - intros [H | [H | [a [Ho Hc]]]]; auto.
    right. exists a. split; [exact Ho | now apply String.eqb_eq].
Qed.

Lemma matchesState_iff (f : string) (c : Customer) :
  CustomerList.matchesState addresses f c = true
  <-> state_condition addresses f c.
Proof.
  unfold CustomerList.matchesState, state_condition.
  rewrite !orb_true_iff, !String.eqb_eq, some_owned_iff.
  split.
  - intros [[H | H] | [a [Ho Hc]]]; auto.
    right; right. exists a. apply String.eqb_eq in Hc. auto.
  - intros [H | [H | [a [Ho Hc]]]]; auto.
    right. exists a. split; [exact Ho | now apply String.eqb_eq].
Qed.

Lemma filteredCustomers_no_filter (customers : list Customer) :
  CustomerList.filteredCustomers customers addresses "" "" "" = customers.
Proof.
  unfold CustomerList.filteredCustomers. apply filter_all_true.
  intros c _. reflexivity.
Qed.

End Filtering.

(** C3, as amended: for every customer collection, address collection, term,
    city filter and state filter, [filteredCustomers] is exactly the
    subsequence, in order, of the customers for which: the term is empty, or
    contained whatever the case in [firstName] or [lastName], or contained as
    written (case-sensitively) in [phoneNumber]; and the city filter is empty
    or "all" or equals the city of an address the customer owns; and the same
    for the state filter. With empty term, city and state the result is the
    input collection. *)
Theorem C3_filteredCustomers_selects :
  forall (customers : list Customer) (addresses : list Address)
         (term cityFilter stateFilter : string),
    selects (filter_phone_verbatim addresses term cityFilter stateFilter)
      customers
      (CustomerList.filteredCustomers customers addresses term cityFilter
         stateFilter)
    /\ CustomerList.filteredCustomers customers addresses "" "" "" = customers.
Proof.
  intros customers addresses term cityFilter stateFilter. split.
  - apply filter_selects. intros c. unfold filter_phone_verbatim.
    rewrite !andb_true_iff, matchesSearch_iff, matchesCity_iff,
      matchesState_iff. tauto.
  - apply filteredCustomers_no_filter.
Qed.

(** C3, as stated, fails: a customer whose phone number is "1-800-FLOWERS"
    satisfies the specified condition for the term "flowers" (contained when
    case is ignored), and [filteredCustomers] leaves the customer out. *)
Lemma C3_counterexample_phone_case :
  filter_as_specified [] "flowers" "" "" vanity_customer
  /\ CustomerList.filteredCustomers [vanity_customer] [] "flowers" "" "" = []
  /\ ~ selects (filter_as_specified [] "flowers" "" "") [vanity_customer]
         (CustomerList.filteredCustomers [vanity_customer] [] "flowers" "" "").
Proof.
  assert (Hspec : filter_as_specified [] "flowers" "" "" vanity_customer).
  { unfold filter_as_specified, search_as_specified, city_condition,
      state_condition. repeat split; auto.
    right; right; right. apply includes_iff. reflexivity. }
  split; [exact Hspec|]. split; [reflexivity|].
  intros H. change (CustomerList.filteredCustomers [vanity_customer] []
                      "flowers" "" "") with (@nil Customer) in H.
  inversion H; subst. contradiction.
Qed.

(* ================================================================= *)
(** ** The default-address sweep *)

Section Sweep.
Variable customer : Customer.
Variable addressId : string.

Lemma with_isDefault_same (a : Address) : with_isDefault a (isDefault a) = a.
Proof. destruct a; reflexivity. Qed.

Lemma handleSetDefaultAddress_addresses (s : CustomerDetail.State) (w : World) :
  CustomerDetail.addresses
    (after (CustomerDetail.handleSetDefaultAddress customer addressId) s w)
  = CustomerDetail.sweep_default customer addressId
      (CustomerDetail.addresses s).
Proof. reflexivity. Qed.

Lemma handleSetDefaultAddress_customers (s : CustomerDetail.State) (w : World) :
  CustomerDetail.customers
    (after (CustomerDetail.handleSetDefaultAddress customer addressId) s w)
  = CustomerDetail.customers s.
Proof. reflexivity. Qed.

Lemma sweep_length (l : list Address) :
  List.length (CustomerDetail.sweep_default customer addressId l)
  = List.length l.
Proof. apply length_map. Qed.

Lemma sweep_owned (l : list Address) (a' : Address) :
  In a' (CustomerDetail.sweep_default customer addressId l) ->
  customerId a' = id customer ->
  isDefault a' = (addr_id a' =? addressId)%string.
Proof.
  unfold CustomerDetail.sweep_default. rewrite in_map_iff.
  intros [a [<- _]] Hc. simpl in *.
  apply String.eqb_eq in Hc. now rewrite Hc.
Qed.

Lemma sweep_foreign (l : list Address) (i : nat) (a : Address) :
  nth_error l i = Some a -> customerId a <> id customer ->
  nth_error (CustomerDetail.sweep_default customer addressId l) i = Some a.
Proof.
  intros Hn Hc. unfold CustomerDetail.sweep_default.
  rewrite nth_error_map, Hn. simpl.
  apply String.eqb_neq in Hc. rewrite Hc. now rewrite with_isDefault_same.
Qed.

Lemma defaults_of_sweep (l : list Address) :
  defaults_of (id customer) (CustomerDetail.sweep_default customer addressId l)
  = map (fun a => with_isDefault a true)
        (owned_with_id (id customer) addressId l).
Proof.
  unfold CustomerDetail.sweep_default, defaults_of, owned_with_id.
  induction l as [|a l IH]; [reflexivity|].
  cbn [map filter]. cbn [customerId isDefault with_isDefault].
  destruct (customerId a =? id customer)%string; simpl.
  - destruct (addr_id a =? addressId)%string; simpl; now rewrite IH.
  - exact IH.
Qed.

End Sweep.

(** With unique address ids, an id carried by an address of the customer
    identifies it. *)
Lemma unique_ids_identify (cid addressId : string) (addrs : list Address) :
  NoDup (map addr_id addrs) ->
  (exists a, In a addrs /\ addr_id a = addressId /\ customerId a = cid) ->
  identifies cid addressId addrs.
Proof.
  unfold identifies, owned_with_id.
  induction addrs as [|b l IH]; intros Hnd [a [Hin [Hid Hc]]].
  - destruct Hin.
  - simpl in Hnd. apply NoDup_cons_iff in Hnd. destruct Hnd as [Hnotin Hnd].
    simpl. destruct Hin as [-> | Hin].
    + apply String.eqb_eq in Hc. rewrite Hc. simpl.
      assert (Hid' := Hid). apply String.eqb_eq in Hid'. rewrite Hid'. simpl.
      f_equal. rewrite filter_none; [reflexivity|].
      intros x Hx. apply andb_false_iff. right. apply String.eqb_neq.
      intros E. apply Hnotin. rewrite Hid, <- E. now apply in_map.
    + assert (Hne : (addr_id b =? addressId)%string = false).
      { apply String.eqb_neq. intros E. apply Hnotin.
        rewrite E, <- Hid. now apply in_map. }
      rewrite Hne, andb_false_r. apply IH; [exact Hnd|].
      exists a. auto.
Qed.

(** C1: after [setDefaultAddress(customerId, addressId)] every address of the
    customer has [isDefault] equal to (its id equals [addressId]); and when
    [addressId] identifies an address of the customer (exactly one of the
    customer's addresses carries it; in particular when address ids are
    unique and one of the customer's addresses carries it), the customer's
    default addresses afterward are exactly one, that address (now
    flagged). *)
Theorem C1_setDefaultAddress_single_default :
  forall (customer : Customer) (addressId : string)
         (s : CustomerDetail.State) (w : World),
    let addrs' :=
      CustomerDetail.addresses
        (after (CustomerDetail.handleSetDefaultAddress customer addressId) s w)
    in
    (forall a, In a addrs' -> customerId a = id customer ->
               isDefault a = (addr_id a =? addressId)%string)
    /\ (identifies (id customer) addressId (CustomerDetail.addresses s)
        \/ (NoDup (map addr_id (CustomerDetail.addresses s))
            /\ exists a, In a (CustomerDetail.addresses s)
                         /\ addr_id a = addressId
                         /\ customerId a = id customer) ->
        exists a,
          In a (CustomerDetail.addresses s)
          /\ addr_id a = addressId /\ customerId a = id customer
          /\ defaults_of (id customer) addrs' = [with_isDefault a true]
          /\ List.length (defaults_of (id customer) addrs') = 1%nat).
Proof.
  intros customer addressId s w addrs'. subst addrs'.
  rewrite handleSetDefaultAddress_addresses. split.
  - apply sweep_owned.
  - intros Hone.
    assert (Hid : identifies (id customer) addressId
                    (CustomerDetail.addresses s)).
    { destruct Hone as [H | [Hnd Hex]]; [exact H|].
      now apply unique_ids_identify. }
    clear Hone. unfold identifies in Hid. rewrite defaults_of_sweep.
    destruct (owned_with_id (id customer) addressId
                (CustomerDetail.addresses s))
      as [|a [|b l]] eqn:E; try discriminate.
    assert (Hin : In a (owned_with_id (id customer) addressId
                          (CustomerDetail.addresses s)))
      by (rewrite E; now left).
    unfold owned_with_id in Hin. apply filter_In in Hin.
    destruct Hin as [Hin Hb]. apply andb_true_iff in Hb.
    destruct Hb as [Hc Ha]. apply String.eqb_eq in Hc, Ha.
    exists a. repeat split; auto.
Qed.

(** C1 at the sample store: "a2" identifies Asha's Mumbai address. *)
Lemma C1_witness_sample :
  exists a,
    In a (CustomerDetail.addresses sample_detail)
    /\ addr_id a = "a2" /\ customerId a = id asha
    /\ defaults_of (id asha)
         (CustomerDetail.addresses
            (after (CustomerDetail.handleSetDefaultAddress asha "a2")
               sample_detail ticking_world))
       = [with_isDefault a true]
    /\ List.length
         (defaults_of (id asha)
            (CustomerDetail.addresses
               (after (CustomerDetail.handleSetDefaultAddress asha "a2")
                  sample_detail ticking_world))) = 1%nat.
Proof.
  apply (proj2 (C1_setDefaultAddress_single_default asha "a2" sample_detail
                  ticking_world)).
  left. reflexivity.
Defined.

(** C10: [setDefaultAddress(customerId, addressId)] keeps the collection's
    length and leaves every address of another customer as it was, at its
    position; and when no address of the customer carries [addressId], the
    customer has no default address afterward. *)
Theorem C10_setDefaultAddress_frame :
  forall (customer : Customer) (addressId : string)
         (s : CustomerDetail.State) (w : World),
    let addrs' :=
      CustomerDetail.addresses
        (after (CustomerDetail.handleSetDefaultAddress customer addressId) s w)
    in
    List.length addrs' = List.length (CustomerDetail.addresses s)
    /\ (forall i a, nth_error (CustomerDetail.addresses s) i = Some a ->
                    customerId a <> id customer ->
                    nth_error addrs' i = Some a)
    /\ ((forall a, In a (CustomerDetail.addresses s) ->
                   customerId a = id customer -> addr_id a <> addressId) ->
        defaults_of (id customer) addrs' = []).
Proof.
  intros customer addressId s w addrs'. subst addrs'.
  rewrite handleSetDefaultAddress_addresses. split; [apply sweep_length|].
  split; [apply sweep_foreign|].
  intros Hnone. rewrite defaults_of_sweep. unfold owned_with_id.
  rewrite filter_none; [reflexivity|].
  intros a Hin. destruct (customerId a =? id customer)%string eqn:Hc;
    [|reflexivity].
  apply String.eqb_eq in Hc. simpl. apply String.eqb_neq. now apply Hnone.
Qed.

(** C10 at the sample store: Ravi's address survives a sweep of Asha's, and an
    id Asha does not own leaves Asha with no default. *)
Lemma C10_witness_sample :
  nth_error
    (CustomerDetail.addresses
       (after (CustomerDetail.handleSetDefaultAddress asha "a3") sample_detail
          ticking_world)) 2 = Some delhi
  /\ defaults_of (id asha)
       (CustomerDetail.addresses
          (after (CustomerDetail.handleSetDefaultAddress asha "a3")
             sample_detail ticking_world)) = [].
Proof.
  pose proof (C10_setDefaultAddress_frame asha "a3" sample_detail
                ticking_world) as [_ [Hframe Hnone]].
  split.
  - apply Hframe; [reflexivity | discriminate].
  - apply Hnone. intros a Hin Hc.
    simpl in Hin. destruct Hin as [<- | [<- | [<- | []]]]; discriminate.
Defined.

(* ================================================================= *)
(** ** Updating a customer *)

Section UpdateCustomer.
Context {S : Type}.
Variable target : string.
Variable d : CustomerData.

Lemma merged_spread (c : Customer) (now : Z) :
  merged c d now (spread_customer_update c d (toISOString now)).
Proof. unfold merged. simpl. auto 7. Qed.

Lemma update_effect_later_world (w w' : World) (prev next : list Customer) :
  later_world w w' -> update_effect target d w' prev next ->
  update_effect target d w prev next.
Proof.
  intros [Hc [Hr _]] [Hlen [Hkeep [Hhit Hnone]]].
  split; [exact Hlen|]. split; [exact Hkeep|]. split; [|exact Hnone].
  intros i c Hn Hid. destruct (Hhit i c Hn Hid) as [k [c' [Hk [Hn' Hm]]]].
  exists k, c'. rewrite Hc in Hm.
  split; [lia|]. split; [exact Hn' | exact Hm].
Qed.

Lemma update_effect_nil (w : World) : update_effect target d w [] [].
Proof.
  unfold update_effect. split; [reflexivity|].
  split; [intros [|i] c H; discriminate|].
  split; [intros [|i] c H; discriminate|].
  reflexivity.
Qed.

Lemma update_effect_cons_keep (w : World) (x : Customer)
  (prev next : list Customer) :
  id x <> target -> update_effect target d w prev next ->
  update_effect target d w (x :: prev) (x :: next).
Proof.
  intros Hx [Hlen [Hkeep [Hhit Hnone]]]. unfold update_effect.
  split; [simpl; now rewrite Hlen|].
  split; [|split].
  - intros [|i] c Hn Hid; simpl in *; [exact Hn | now apply Hkeep].
  - intros [|i] c Hn Hid; simpl in *.
    + injection Hn as ->. contradiction.
    + now apply Hhit.
  - intros H. f_equal. apply Hnone. intros c Hc. apply H. now right.
Qed.

Lemma update_effect_cons_hit (w : World) (x : Customer)
  (prev next : list Customer) :
  id x = target -> update_effect target d w prev next ->
  update_effect target d w (x :: prev)
    (spread_customer_update x d (toISOString (clock w (reads w))) :: next).
Proof.
  intros Hx [Hlen [Hkeep [Hhit Hnone]]]. unfold update_effect.
  split; [simpl; now rewrite Hlen|].
  split; [|split].
  - intros [|i] c Hn Hid; simpl in *.
    + injection Hn as ->. contradiction.
    + now apply Hkeep.
  - intros [|i] c Hn Hid; simpl in *.
    + injection Hn as <-.
      exists (reads w),
        (spread_customer_update x d (toISOString (clock w (reads w)))).
      split; [lia|]. split; [reflexivity | apply merged_spread].
    + now apply Hhit.
  - intros H. exfalso. apply (H x); [now left | exact Hx].
Qed.

Lemma mapM_cons {A B : Type} (f : A -> Handler S B) (x : A) (l : list A)
  (s : S) (w : World) :
  mapM f (x :: l) s w
  = let '(y, s1, w1) := f x s w in
    let '(ys, s2, w2) := mapM f l s1 w1 in (y :: ys, s2, w2).
Proof.
  cbn [mapM]. unfold bind. destruct (f x s w) as [[y s1] w1].
  destruct (mapM f l s1 w1) as [[ys s2] w2]. reflexivity.
Qed.

Lemma update_matching_hit (c : Customer) (s : S) (w : World) :
  id c = target ->
  update_matching target d c s w
  = (spread_customer_update c d (toISOString (clock w (reads w))), s, tick w).
Proof.
  intros E. apply String.eqb_eq in E. unfold update_matching. rewrite E.
  reflexivity.
Qed.

Lemma update_matching_miss (c : Customer) (s : S) (w : World) :
  id c <> target -> update_matching target d c s w = (c, s, w).
Proof.
  intros E. apply String.eqb_neq in E. unfold update_matching. rewrite E.
  reflexivity.
Qed.

(** The mapped callback leaves the component state alone, only reads the
    clock, and has the effect of an update. *)
Lemma mapM_update_matching (l : list Customer) (s : S) (w : World) :
  exists next w',
    mapM (update_matching target d) l s w = (next, s, w')
    /\ later_world w w'
    /\ update_effect target d w l next.
Proof.
  revert w. induction l as [|x l IH]; intros w.
  - exists [], w. split; [reflexivity|]. split.
    + unfold later_world. auto.
    + apply update_effect_nil.
  - rewrite mapM_cons. destruct (String.eqb_spec (id x) target) as [E | E].
    + rewrite (update_matching_hit x s w E).
      destruct (IH (tick w)) as [next [w' [Heq [Hlater Heff]]]].
      rewrite Heq.
      exists (spread_customer_update x d (toISOString (clock w (reads w)))
                :: next), w'.
      assert (Hw1 : later_world w (tick w))
        by (unfold later_world; simpl; auto).
      split; [reflexivity|]. split.
      * destruct Hlater as [H1 [H2 [H3 H4]]]. unfold later_world.
        simpl in *. repeat split; auto; lia.
      * apply update_effect_cons_hit; [exact E|].
        now apply update_effect_later_world with (tick w).
    + rewrite (update_matching_miss x s w E).
      destruct (IH w) as [next [w' [Heq [Hlater Heff]]]].
      rewrite Heq. exists (x :: next), w'.
      split; [reflexivity|]. split; [exact Hlater|].
      now apply update_effect_cons_keep.
Qed.

End UpdateCustomer.

Lemma detail_handleUpdateCustomer_effect (customer : Customer)
  (d : CustomerData) (s : CustomerDetail.State) (w : World) :
  update_effect (id customer) d w (CustomerDetail.customers s)
    (CustomerDetail.customers
       (after (CustomerDetail.handleUpdateCustomer customer d) s w))
  /\ CustomerDetail.addresses
       (after (CustomerDetail.handleUpdateCustomer customer d) s w)
     = CustomerDetail.addresses s.
Proof.
  unfold after, exec, CustomerDetail.handleUpdateCustomer, bind, gets.
  destruct (mapM_update_matching (id customer) d (CustomerDetail.customers s)
              s w) as [next [w' [Heq [_ Heff]]]].
  rewrite Heq. simpl. auto.
Qed.

Lemma list_handleSaveCustomer_update_effect (e : Customer) (d : CustomerData)
  (s : CustomerList.State) (w : World) :
  CustomerList.editingCustomer s = Some e ->
  update_effect (id e) d w (CustomerList.customers s)
    (CustomerList.customers (after (CustomerList.handleSaveCustomer d) s w))
  /\ CustomerList.addresses (after (CustomerList.handleSaveCustomer d) s w)
     = CustomerList.addresses s.
Proof.
  intros He.
  unfold after, exec, CustomerList.handleSaveCustomer, bind, gets.
  rewrite He.
  destruct (mapM_update_matching (id e) d (CustomerList.customers s) s w)
    as [next [w' [Heq [_ Heff]]]].
  rewrite Heq. simpl. auto.
Qed.

(** C7: [updateCustomer(id, data)], on the detail page and on the list page
    alike, keeps every customer at its position; a customer with another id
    stays the same entity; a customer with the id gets [data] merged in and
    its [updatedAt] refreshed to a reading of the clock, nothing else; and
    with no customer of that id the collection is unchanged. The addresses
    are not touched. *)
Theorem C7_updateCustomer_frame :
  forall (customer e : Customer) (d : CustomerData)
         (sd : CustomerDetail.State) (sl : CustomerList.State) (w : World),
    CustomerList.editingCustomer sl = Some e ->
    (update_effect (id customer) d w (CustomerDetail.customers sd)
       (CustomerDetail.customers
          (after (CustomerDetail.handleUpdateCustomer customer d) sd w))
     /\ CustomerDetail.addresses
          (after (CustomerDetail.handleUpdateCustomer customer d) sd w)
        = CustomerDetail.addresses sd)
    /\ (update_effect (id e) d w (CustomerList.customers sl)
          (CustomerList.customers
             (after (CustomerList.handleSaveCustomer d) sl w))
        /\ CustomerList.addresses
             (after (CustomerList.handleSaveCustomer d) sl w)
           = CustomerList.addresses sl).
Proof.
  intros customer e d sd sl w He. split.
  - apply detail_handleUpdateCustomer_effect.
  - now apply list_handleSaveCustomer_update_effect.
Qed.

(** C7 at the sample store: Asha renamed on both pages. *)
Lemma C7_witness_sample :
  (update_effect "1" rename_data ticking_world [asha; ravi]
     (CustomerDetail.customers
        (after (CustomerDetail.handleUpdateCustomer asha rename_data)
           sample_detail ticking_world))
   /\ CustomerDetail.addresses
        (after (CustomerDetail.handleUpdateCustomer asha rename_data)
           sample_detail ticking_world)
      = [pune; mumbai; delhi])
  /\ (update_effect "1" rename_data ticking_world [asha; ravi]
        (CustomerList.customers
           (after (CustomerList.handleSaveCustomer rename_data)
              (after (CustomerList.handleEditCustomer asha) sample_list
                 ticking_world)
              ticking_world))
      /\ CustomerList.addresses
           (after (CustomerList.handleSaveCustomer rename_data)
              (after (CustomerList.handleEditCustomer asha) sample_list
                 ticking_world)
              ticking_world)
         = [pune; mumbai; delhi]).
Proof.
  apply (C7_updateCustomer_frame asha asha rename_data sample_detail
           (after (CustomerList.handleEditCustomer asha) sample_list
              ticking_world)
           ticking_world).
  reflexivity.
Defined.

(* ================================================================= *)
(** ** Creating a customer *)

(** The create branch reads the clock three times, for the id, for
    [createdAt] and for [updatedAt], and puts the new customer first. *)
Lemma handleSaveCustomer_create (d : CustomerData) (s : CustomerList.State)
  (w : World) :
  CustomerList.editingCustomer s = None ->
  CustomerList.customers (after (CustomerList.handleSaveCustomer d) s w)
  = spread_customer_new (JS.toString (clock w (reads w))) d
      (toISOString (clock w (Datatypes.S (reads w))))
      (toISOString (clock w (Datatypes.S (Datatypes.S (reads w)))))
    :: CustomerList.customers s.
Proof.
  intros He. unfold after, exec, CustomerList.handleSaveCustomer, bind, gets.
  rewrite He. reflexivity.
Qed.

(** The two timestamps of a new customer agree exactly when the clock shows
    the same millisecond at its second and third reading. *)
Lemma create_timestamps_equal_iff (d : CustomerData) (s : CustomerList.State)
  (w : World) (c : Customer) (rest : list Customer) :
  CustomerList.editingCustomer s = None ->
  CustomerList.customers (after (CustomerList.handleSaveCustomer d) s w)
  = c :: rest ->
  (createdAt c = updatedAt c
   <-> clock w (Datatypes.S (reads w))
       = clock w (Datatypes.S (Datatypes.S (reads w)))).
Proof.
  intros He Hc. rewrite (handleSaveCustomer_create d s w He) in Hc.
  injection Hc as <- _. simpl. split; congruence.
Qed.

(** With a clock that never runs backwards, [createdAt] is not later than
    [updatedAt] at creation. *)
Lemma create_timestamps_ordered (d : CustomerData) (s : CustomerList.State)
  (w : World) (c : Customer) (rest : list Customer) :
  monotone w ->
  CustomerList.editingCustomer s = None ->
  CustomerList.customers (after (CustomerList.handleSaveCustomer d) s w)
  = c :: rest ->
  getTime (createdAt c) <= getTime (updatedAt c).
Proof.
  intros Hm He Hc. rewrite (handleSaveCustomer_create d s w He) in Hc.
  injection Hc as <- _. simpl. apply Hm. lia.
Qed.

(** An update keeps [createdAt]; with a clock that never runs backwards and a
    previous [updatedAt] not in the future, the new [updatedAt] is later or
    equal. *)
Lemma update_effect_timestamps (target : string) (d : CustomerData)
  (w : World) (prev next : list Customer) (i : nat) (c : Customer) :
  update_effect target d w prev next ->
  monotone w ->
  nth_error prev i = Some c ->
  getTime (updatedAt c) <= clock w (reads w) ->
  exists c', nth_error next i = Some c'
             /\ createdAt c' = createdAt c
             /\ getTime (updatedAt c) <= getTime (updatedAt c').
Proof.
  intros [Hlen [Hkeep [Hhit Hnone]]] Hm Hn Hpast.
  destruct (String.eqb_spec (id c) target) as [E | E].
  - destruct (Hhit i c Hn E) as [k [c' [Hk [Hn' Hmerged]]]].
    exists c'. split; [exact Hn'|].
    destruct Hmerged as [_ [Hcr [Hup _]]]. split; [exact Hcr|].
    rewrite Hup. simpl. specialize (Hm _ _ Hk). lia.
  - exists c. split; [now apply Hkeep|]. split; [reflexivity | lia].
Qed.

(** C6, the code at a failing input: on a clock that advances between the
    reading for [createdAt] and the reading for [updatedAt], the customer
    created (and put first) has [updatedAt] one millisecond after
    [createdAt]. *)
Theorem C6_create_reads_clock_twice :
  exists c,
    CustomerList.customers
      (after (CustomerList.handleSaveCustomer new_customer_data) sample_list
         ticking_world)
    = c :: CustomerList.customers sample_list
    /\ createdAt c = toISOString 1700000001001
    /\ updatedAt c = toISOString 1700000001002
    /\ createdAt c <> updatedAt c.
Proof.
  eexists. split; [reflexivity|]. simpl.
  split; [reflexivity|]. split; [reflexivity | discriminate].
Qed.

(* ================================================================= *)
(** ** Deleting a customer *)

(** On the list page a confirmed delete removes, in one handler, the
    customers with the id and the addresses that reference it. *)
Lemma list_handleDeleteCustomer_cascades (cid : string)
  (s : CustomerList.State) (w : World) :
  let s' := after (CustomerList.handleDeleteCustomer true cid) s w in
  (forall c, In c (CustomerList.customers s') <->
             In c (CustomerList.customers s) /\ id c <> cid)
  /\ (forall a, In a (CustomerList.addresses s') <->
                In a (CustomerList.addresses s) /\ customerId a <> cid).
Proof.
  simpl. split.
  - intros c. rewrite filter_In, negb_true_iff, String.eqb_neq. reflexivity.
  - intros a. rewrite filter_In, negb_true_iff, String.eqb_neq. reflexivity.
Qed.

(** On the detail page the handler writes to neither collection, whatever the
    answer to the confirmation. *)
Lemma detail_handleDeleteCustomer_state (confirmed : bool)
  (s : CustomerDetail.State) (w : World) :
  after (CustomerDetail.handleDeleteCustomer confirmed) s w = s.
Proof. destruct confirmed; reflexivity. Qed.

(** C2, the code at a failing input: on the detail page of Asha, a confirmed
    delete announces the deletion and navigates to the list, and leaves Asha
    and both of Asha's addresses in the store. *)
Theorem C2_detail_delete_removes_nothing :
  let s' := after (CustomerDetail.handleDeleteCustomer true)
              sample_detail ticking_world in
  let w' := world_after (CustomerDetail.handleDeleteCustomer true)
              sample_detail ticking_world in
  CustomerDetail.customer "1" s' = Some asha
  /\ CustomerDetail.customerAddresses "1" s' = [pune; mumbai]
  /\ toasts w'
     = [mkToast "Customer Deleted"
          "Customer and all associated addresses have been deleted." true]
  /\ location w' = Some "/".
Proof. repeat split. Qed.

(* ================================================================= *)
(** ** Creating an address *)

Lemma handleSaveAddress_create (d : AddressData)
  (s : CustomerDetail.State) (w : World) :
  CustomerDetail.editingAddress s = None ->
  CustomerDetail.addresses
    (after (CustomerDetail.handleSaveAddress d) s w)
  = CustomerDetail.addresses s
    ++ [spread_address_new (JS.toString (clock w (reads w))) d].
Proof.
  intros He. unfold after, exec, CustomerDetail.handleSaveAddress, bind, gets.
  rewrite He. reflexivity.
Qed.

(** C9: [createAddress(customerId, data)] (the save of the address form when
    no address is being edited) appends exactly one address, whose id is the
    one assigned at the call (the clock reading, in decimal) and whose
    [customerId] and other fields are the given ones; every address that was
    there stays at its position, unchanged, its [isDefault] flag included,
    whatever the [isDefault] of the new one. The customers are not touched. *)
Theorem C9_createAddress_frame :
  forall (d : AddressData) (s : CustomerDetail.State) (w : World),
    CustomerDetail.editingAddress s = None ->
    let s' := after (CustomerDetail.handleSaveAddress d) s w in
    (exists newAddress,
        CustomerDetail.addresses s'
        = CustomerDetail.addresses s ++ [newAddress]
        /\ addr_id newAddress = JS.toString (clock w (reads w))
        /\ customerId newAddress = data_customerId d
        /\ city newAddress = data_city d
        /\ state newAddress = data_state d
        /\ isDefault newAddress = data_isDefault d)
    /\ List.length (CustomerDetail.addresses s')
       = Datatypes.S (List.length (CustomerDetail.addresses s))
    /\ (forall i a, nth_error (CustomerDetail.addresses s) i = Some a ->
                    nth_error (CustomerDetail.addresses s') i = Some a)
    /\ CustomerDetail.customers s' = CustomerDetail.customers s.
Proof.
  intros d s w He s'. subst s'.
  rewrite (handleSaveAddress_create d s w He).
  split; [|split; [|split]].
  - eexists. split; [reflexivity|]. simpl. auto 6.
  - rewrite length_app. simpl. lia.
  - intros i a Hn. rewrite nth_error_app1; [exact Hn|].
    apply nth_error_Some. congruence.
  - unfold after, exec, CustomerDetail.handleSaveAddress, bind, gets.
    rewrite He. reflexivity.
Qed.

(** C9 at the sample store: a new default address for Asha is appended, and
    Asha's earlier default keeps its flag. *)
Lemma C9_witness_sample :
  let s' := after (CustomerDetail.handleSaveAddress nagpur_data)
              sample_detail ticking_world in
  (exists newAddress,
      CustomerDetail.addresses s' = [pune; mumbai; delhi] ++ [newAddress]
      /\ addr_id newAddress = "1700000001000"
      /\ customerId newAddress = "1"
      /\ city newAddress = "Nagpur"
      /\ state newAddress = "Maharashtra"
      /\ isDefault newAddress = true)
  /\ List.length (CustomerDetail.addresses s') = 4%nat
  /\ (forall i a, nth_error [pune; mumbai; delhi] i = Some a ->
                  nth_error (CustomerDetail.addresses s') i = Some a)
  /\ CustomerDetail.customers s' = [asha; ravi].
Proof.
  apply (C9_createAddress_frame nagpur_data sample_detail ticking_world).
  reflexivity.
Defined.

(* ================================================================= *)
(** ** Facets *)

Section Facets.

Lemma Set_add_spec (acc : list string) (x : string) :
  NoDup acc ->
  NoDup (JS.Set_add acc x)
  /\ (forall y, In y (JS.Set_add acc x) <-> In y acc \/ y = x).
Proof.
  intros Hnd. unfold JS.Set_add.
  destruct (existsb (String.eqb x) acc) eqn:E.
  - split; [exact Hnd|]. intros y. split; [auto|].
    intros [H | ->]; [exact H|].
    apply existsb_exists in E. destruct E as [z [Hz Hxz]].
    apply String.eqb_eq in Hxz. now subst z.
  - assert (Hnotin : ~ In x acc).
    { intros Hin. assert (Ht : existsb (String.eqb x) acc = true).
      { apply existsb_exists. exists x. split; [exact Hin|].
        apply String.eqb_refl. }
      congruence. }
    split.
    + apply NoDup_app; [exact Hnd | repeat constructor; auto |].
      intros y Hy [<- | []]. contradiction.
    + intros y. rewrite in_app_iff. simpl. intuition.
Qed.

Lemma fold_Set_add_spec (xs acc : list string) :
  NoDup acc ->
  NoDup (fold_left JS.Set_add xs acc)
  /\ (forall y, In y (fold_left JS.Set_add xs acc) <-> In y acc \/ In y xs).
Proof.
  revert acc. induction xs as [|x xs IH]; intros acc Hnd; simpl.
  - split; [exact Hnd|]. intros y. tauto.
  - destruct (Set_add_spec acc x Hnd) as [Hnd' Hin'].
    destruct (IH _ Hnd') as [Hnd'' Hin'']. split; [exact Hnd''|].
    intros y. rewrite Hin'', Hin'. intuition.
Qed.

Lemma new_Set_spec (xs : list string) :
  NoDup (JS.new_Set xs) /\ (forall y, In y (JS.new_Set xs) <-> In y xs).
Proof.
  destruct (fold_Set_add_spec xs [] (NoDup_nil _)) as [Hnd Hin].
  split; [exact Hnd|]. intros y. unfold JS.new_Set. rewrite Hin.
  simpl. tauto.
Qed.

Lemma sorted_nodup_ascending (l : list string) :
  StronglySorted (fun a b => is_true (String.leb a b)) l -> NoDup l ->
  ascending l.
Proof.
  unfold ascending. induction 1 as [|a l Hs IH Hall]; intros Hnd.
  - constructor.
  - apply NoDup_cons_iff in Hnd. destruct Hnd as [Hnotin Hnd].
    constructor; [now apply IH|].
    rewrite Forall_forall in *. intros x Hx.
    apply string_leb_neq_ltb; [now apply Hall|].
    intros ->. contradiction.
Qed.

Lemma ascending_NoDup (l : list string) : ascending l -> NoDup l.
Proof.
  unfold ascending. induction 1 as [|a l Hs IH Hall]; constructor; auto.
  intros Hin. rewrite Forall_forall in Hall. specialize (Hall a Hin).
  now rewrite string_ltb_irrefl in Hall.
Qed.

(** An ascending arrangement of given values is unique: whatever algorithm
    [sort] runs, the facet is this list. *)
Lemma ascending_unique (l1 l2 : list string) :
  ascending l1 -> ascending l2 -> (forall x, In x l1 <-> In x l2) -> l1 = l2.
Proof.
  unfold ascending. intros H1. revert l2.
  induction H1 as [|a l1 Hs1 IH Hall1]; intros l2 H2 Hin.
  - destruct l2 as [|b l2]; [reflexivity|].
    exfalso. apply (proj2 (Hin b)). now left.
  - destruct H2 as [|b l2 Hs2 Hall2].
    + exfalso. apply (proj1 (Hin a)). now left.
    + rewrite Forall_forall in Hall1, Hall2.
      assert (Hab : a = b).
      { destruct (proj1 (Hin a) (or_introl eq_refl)) as [E | Ha]; [auto|].
        destruct (proj2 (Hin b) (or_introl eq_refl)) as [E | Hb]; [auto|].
        pose proof (string_lt_trans _ _ _ (Hall1 b Hb) (Hall2 a Ha)) as Hc.
        now rewrite string_ltb_irrefl in Hc. }
      subst b. f_equal. apply IH; [exact Hs2|].
      intros x. split; intros Hx.
      * destruct (proj1 (Hin x) (or_intror Hx)) as [E | Hx2]; [|exact Hx2].
        subst x. specialize (Hall1 a Hx).
        now rewrite string_ltb_irrefl in Hall1.
      * destruct (proj2 (Hin x) (or_intror Hx)) as [E | Hx1]; [|exact Hx1].
        subst x. specialize (Hall2 a Hx).
        now rewrite string_ltb_irrefl in Hall2.
Qed.

(** Sorting the distinct values of any list of strings. *)
Lemma distinct_sorted (xs : list string) :
  let r := JS.sort (JS.new_Set xs) in
  ascending r /\ NoDup r /\ (forall y, In y r <-> In y xs).
Proof.
  intros r. subst r. unfold JS.sort.
  destruct (new_Set_spec xs) as [Hnd Hin].
  pose proof (JS.StringSort.Permuted_sort (JS.new_Set xs)) as Hperm.
  assert (Hnd' : NoDup (JS.StringSort.sort (JS.new_Set xs)))
    by (eapply Permutation_NoDup; eauto).
  split; [|split].
  - apply sorted_nodup_ascending; [|exact Hnd'].
    apply JS.StringSort.StronglySorted_sort. exact string_leb_trans.
  - exact Hnd'.
  - intros y. rewrite <- Hin. split; intros H.
    + eapply Permutation_in; [apply Permutation_sym; exact Hperm | exact H].
    + eapply Permutation_in; [exact Hperm | exact H].
Qed.

End Facets.

(** C8: for every address collection, the city facet and the state facet are
    strictly ascending (sorted and duplicate-free) and hold exactly the city
    values, respectively the state values, of all the addresses. *)
Theorem C8_facets_sorted_distinct :
  forall addresses : list Address,
    (ascending (CustomerList.cities addresses)
     /\ NoDup (CustomerList.cities addresses)
     /\ forall x, In x (CustomerList.cities addresses)
                  <-> exists a, In a addresses /\ city a = x)
    /\ (ascending (CustomerList.states addresses)
        /\ NoDup (CustomerList.states addresses)
        /\ forall x, In x (CustomerList.states addresses)
                     <-> exists a, In a addresses /\ state a = x).
Proof.
  intros addresses. unfold CustomerList.cities, CustomerList.states. split.
  - destruct (distinct_sorted (map city addresses)) as [Ha [Hn Hi]].
    split; [exact Ha|]. split; [exact Hn|].
    intros x. rewrite Hi, in_map_iff. split; intros [a [H1 H2]]; eauto.
  - destruct (distinct_sorted (map state addresses)) as [Ha [Hn Hi]].
    split; [exact Ha|]. split; [exact Hn|].
    intros x. rewrite Hi, in_map_iff. split; intros [a [H1 H2]]; eauto.
Qed.

(* ================================================================= *)
(** ** Pagination *)

Section Pagination.
Context {A : Type}.

Lemma Math_ceil_div_6 (a : Z) : JS.Math_ceil_div a 6 = - ((- a) / 6).
Proof.
  unfold JS.Math_ceil_div, Qceiling, Qfloor, Qdiv, Qmult, Qinv, Qopp,
    inject_Z. simpl. f_equal. f_equal. lia.
Qed.

Lemma totalPages_is_page_count (l : list A) :
  is_page_count (Z.of_nat (List.length l)) (CustomerList.totalPages l).
Proof.
  unfold is_page_count, CustomerList.totalPages, CustomerList.itemsPerPage.
  rewrite Math_ceil_div_6.
  pose proof (Z.div_mod (- Z.of_nat (List.length l)) 6 ltac:(lia)) as Hdm.
  pose proof (Z.mod_pos_bound (- Z.of_nat (List.length l)) 6 ltac:(lia)).
  lia.
Qed.

Lemma page_count_unique (len n m : Z) :
  is_page_count len n -> is_page_count len m -> n = m.
Proof. unfold is_page_count. lia. Qed.

Lemma paginatedCustomers_window (l : list A) (page : Z) :
  1 <= page ->
  CustomerList.paginatedCustomers l page
  = firstn 6 (skipn (Z.to_nat ((page - 1) * 6)) l).
Proof.
  intros Hp.
  unfold CustomerList.paginatedCustomers, CustomerList.itemsPerPage, JS.slice.
  set (len := Z.of_nat (List.length l)).
  assert (H1 : ((page - 1) * 6 <? 0) = false) by (apply Z.ltb_ge; lia).
  assert (H2 : (page * 6 <? 0) = false) by (apply Z.ltb_ge; lia).
  rewrite H1, H2.
  destruct (Z_lt_le_dec ((page - 1) * 6) len) as [Hlt | Hge].
  - rewrite (Z.min_l ((page - 1) * 6) len) by lia.
    destruct (Z_le_gt_dec (page * 6) len) as [Hle | Hgt].
    + rewrite (Z.min_l (page * 6) len) by lia.
      replace (Z.to_nat (Z.max (page * 6 - (page - 1) * 6) 0)) with 6%nat
        by lia.
      reflexivity.
    + rewrite (Z.min_r (page * 6) len) by lia.
      rewrite !firstn_all2; [reflexivity | |]; rewrite length_skipn;
        subst len; lia.
  - rewrite (Z.min_r ((page - 1) * 6) len) by lia.
    rewrite (skipn_all2 (n := Z.to_nat len)) by (subst len; lia).
    rewrite (skipn_all2 (n := Z.to_nat ((page - 1) * 6)))
      by (subst len; lia).
    now rewrite !firstn_nil.
Qed.

Lemma paginatedCustomers_positions (l : list A) (page : Z) (i : nat) :
  1 <= page ->
  nth_error (CustomerList.paginatedCustomers l page) i
  = if (i <? 6)%nat
    then nth_error l (Z.to_nat ((page - 1) * 6) + i)
    else None.
Proof.
  intros Hp. rewrite paginatedCustomers_window by exact Hp.
  rewrite nth_error_firstn. destruct (i <? 6)%nat; [|reflexivity].
  apply nth_error_skipn.
Qed.

End Pagination.

(** C4: for every sequence and every requested page (pages are numbered from
    1), with page size 6: the page count is the ceiling of length / 6; the
    page is the elements at positions (page-1)*6 up to page*6 exclusive; and
    for 13 items the page count is 3, page 3 is the 13th item alone and page
    1 is the first 6 items. *)
Theorem C4_pagination :
  forall (A : Type) (l : list A) (page : Z),
    1 <= page ->
    is_page_count (Z.of_nat (List.length l)) (CustomerList.totalPages l)
    /\ CustomerList.paginatedCustomers l page
       = firstn 6 (skipn (Z.to_nat ((page - 1) * 6)) l)
    /\ (forall i : nat,
          nth_error (CustomerList.paginatedCustomers l page) i
          = if (i <? 6)%nat
            then nth_error l (Z.to_nat ((page - 1) * 6) + i)
            else None)
    /\ (List.length l = 13%nat ->
        CustomerList.totalPages l = 3
        /\ (exists x, nth_error l 12 = Some x
                      /\ CustomerList.paginatedCustomers l 3 = [x])
        /\ CustomerList.paginatedCustomers l 1 = firstn 6 l).
Proof.
  intros A l page Hp.
  split; [apply totalPages_is_page_count|].
  split; [now apply paginatedCustomers_window|].
  split; [intros i; now apply paginatedCustomers_positions|].
  intros Hlen. split; [|split].
  - apply (page_count_unique 13); [|unfold is_page_count; lia].
    pose proof (totalPages_is_page_count l) as H. now rewrite Hlen in H.
  - rewrite paginatedCustomers_window by lia.
    do 13 (destruct l as [|? l]; [discriminate|]).
    destruct l; [|discriminate]. eexists. split; reflexivity.
  - rewrite paginatedCustomers_window by lia. reflexivity.
Qed.

(** C4 on thirteen numbers. *)
Lemma C4_witness_thirteen :
  CustomerList.totalPages thirteen = 3
  /\ CustomerList.paginatedCustomers thirteen 3 = [13]
  /\ CustomerList.paginatedCustomers thirteen 1 = [1; 2; 3; 4; 5; 6]
  /\ CustomerList.paginatedCustomers thirteen 2 = [7; 8; 9; 10; 11; 12].
Proof.
  pose proof (C4_pagination Z thirteen 2 ltac:(lia)) as [_ [Hwin [_ H13]]].
  destruct (H13 eq_refl) as [Htotal [[x [Hx H3]] H1]].
  split; [exact Htotal|]. split; [|split].
  - rewrite H3. simpl in Hx. now injection Hx as <-.
  - exact H1.
  - exact Hwin.
Defined.

(* ================================================================= *)
(** ** The current page *)

Section CurrentPage.
Import CustomerList.

(** The filter bindings are the bare setters: they keep the current page. *)
Lemma filter_change_keeps_page (s : State) (w : World) (v : string) :
  currentPage (after (handle (SearchChange v)) s w) = currentPage s
  /\ currentPage (after (handle (CityFilterChange v)) s w) = currentPage s
  /\ currentPage (after (handle (StateFilterChange v)) s w) = currentPage s.
Proof. repeat split. Qed.

(** Clearing the filters does go back to page 1. *)
Lemma handleClearFilters_resets (s : State) (w : World) :
  let s' := after handleClearFilters s w in
  searchTerm s' = "" /\ cityFilter s' = "" /\ stateFilter s' = ""
  /\ currentPage s' = 1.
Proof. repeat split. Qed.

Lemma totalPages_nonneg {A : Type} (l : list A) : 0 <= totalPages l.
Proof.
  pose proof (totalPages_is_page_count l) as H. unfold is_page_count in H.
  lia.
Qed.

(** The current page never drops below 1. *)
Lemma currentPage_positive (mc : list Customer) (ma : list Address)
  (sw : State * World) :
  reachable mc ma sw -> 1 <= currentPage (fst sw).
Proof.
  induction 1 as [w | [s w] e sw' Hr IH [Hen Hex]].
  - simpl. lia.
  - simpl in *. subst sw'. destruct e; simpl in *; try exact IH; try lia.
    + unfold exec, handleSaveCustomer, bind, gets.
      destruct (editingCustomer s) as [e|].
      * destruct (mapM_update_matching (id e) customerData (customers s) s w)
          as [next [w' [Heq _]]].
        rewrite Heq. simpl. exact IH.
      * simpl. exact IH.
    + destruct confirmed; simpl; exact IH.
    + apply andb_true_iff in Hen. destruct Hen as [Hen _].
      unfold pagination_rendered in Hen. apply andb_true_iff in Hen.
      destruct Hen as [_ Hen]. apply Z.ltb_lt in Hen.
      apply Z.min_glb; lia.
Qed.

(** From the mount, adding customers one after the other (open the form,
    save) reaches a state with [n] more customers, no filter, on page 1. *)
Lemma reachable_after_adding (mc : list Customer) (ma : list Address)
  (w : World) (n : nat) :
  exists s w',
    reachable mc ma (s, w')
    /\ searchTerm s = "" /\ cityFilter s = "" /\ stateFilter s = ""
    /\ currentPage s = 1 /\ editingCustomer s = None
    /\ List.length (customers s) = (n + List.length mc)%nat.
Proof.
  induction n as [|n IH].
  - exists (init mc ma), w. repeat split. constructor.
  - destruct IH as [s [w' [Hr [Ht [Hc [Hs [Hp [He Hlen]]]]]]]].
    set (sw1 := exec (handle ClickAddCustomer) s w').
    set (sw2 := exec (handle (FormSave new_customer_data)) (fst sw1)
                  (snd sw1)).
    assert (Hr1 : reachable mc ma sw1).
    { apply (reach_step mc ma (s, w') ClickAddCustomer sw1 Hr).
      split; reflexivity. }
    assert (Hr2 : reachable mc ma sw2).
    { apply (reach_step mc ma sw1 (FormSave new_customer_data) sw2 Hr1).
      split; reflexivity. }
    exists (fst sw2), (snd sw2).
    split; [now destruct sw2|].
    subst sw2 sw1. unfold handle, exec, handleSaveCustomer, bind, gets.
    simpl. rewrite He. simpl. rewrite Hlen. repeat split; auto.
Qed.

End CurrentPage.

(** C5, the code at a failing input: whatever the mock data, the page reaches
    a state on page 2 with no search term (add seven customers, click page
    2); typing a search term there is a step that changes the term and leaves
    the current page at 2. *)
Theorem C5_search_change_keeps_stale_page :
  forall (mc : list Customer) (ma : list Address) (w : World),
  exists sw sw',
    CustomerList.reachable mc ma sw
    /\ CustomerList.step sw (CustomerList.SearchChange "x") sw'
    /\ CustomerList.searchTerm (fst sw) = ""
    /\ CustomerList.searchTerm (fst sw') = "x"
    /\ CustomerList.currentPage (fst sw') = 2.
Proof.
  intros mc ma w.
  destruct (reachable_after_adding mc ma w 7)
    as [s [w' [Hr [Ht [Hc [Hs [Hp [He Hlen]]]]]]]].
  assert (Hf : CustomerList.filtered_of s = CustomerList.customers s).
  { unfold CustomerList.filtered_of. rewrite Ht, Hc, Hs.
    apply filteredCustomers_no_filter. }
  assert (Htotal : 2 <= CustomerList.totalPages (CustomerList.customers s)).
  { pose proof (totalPages_is_page_count (CustomerList.customers s)) as H.
    unfold is_page_count in H. lia. }
  assert (Hen : CustomerList.enabled s (CustomerList.ClickPage 2) = true).
  { unfold CustomerList.enabled, CustomerList.pagination_rendered,
      CustomerList.paginated_of.
    rewrite Hf, Hp, paginatedCustomers_window by lia.
    simpl skipn. rewrite length_firstn.
    apply andb_true_iff. split; [|apply Z.leb_le; lia].
    apply andb_true_iff. split; [|reflexivity].
    apply andb_true_iff. split; [|apply Z.ltb_lt; lia].
    apply negb_true_iff, Nat.eqb_neq. lia. }
  set (sw2 := exec (CustomerList.handle (CustomerList.ClickPage 2)) s w').
  exists sw2, (exec (CustomerList.handle (CustomerList.SearchChange "x"))
                 (fst sw2) (snd sw2)).
  split.
  - apply (CustomerList.reach_step mc ma (s, w') (CustomerList.ClickPage 2)
             sw2 Hr).
    split; [exact Hen | reflexivity].
  - split; [split; reflexivity|]. simpl. auto.
Qed.

(* ================================================================= *)
(** ** The address handlers of the detail page *)

Section AddressHandlers.
Import CustomerDetail.

Lemma filter_length_In {A : Type} (p : A -> bool) (l : list A) (x : A) :
  In x l -> p x = true -> (1 <= List.length (filter p l))%nat.
Proof.
  intros Hin Hp. assert (H : In x (filter p l)) by (apply filter_In; auto).
  destruct (filter p l); [destruct H | simpl; lia].
Qed.

Lemma handleSaveAddress_update_exec (e : Address) (d : AddressData)
  (s : State) (w : World) :
  editingAddress s = Some e ->
  exec (handleSaveAddress d) s w
  = (mkState (customers s)
       (map (fun addr => if (addr_id addr =? addr_id e)%string
                         then spread_address_update addr d else addr)
            (addresses s))
       false (showCustomerForm s) None,
     mkWorld (clock w) (reads w)
       (toasts w ++ [mkToast "Address Updated"
                       "Address has been successfully updated." false])
       (location w)).
Proof.
  intros He. unfold exec, handleSaveAddress, bind, gets. rewrite He.
  reflexivity.
Qed.

(** Saving the address form while an address [e] is being edited: the ids of
    the collection stay as they are, in order; an address with another id is
    untouched; an address with the id of [e] keeps its id and takes every
    other field, [customerId] and [isDefault] included, from the form data;
    no id is generated (the clock is not read); the form is closed. *)
Theorem updateAddress_frame :
  forall (e : Address) (d : AddressData) (s : State) (w : World),
    editingAddress s = Some e ->
    let s' := after (handleSaveAddress d) s w in
    map addr_id (addresses s') = map addr_id (addresses s)
    /\ (forall i a, nth_error (addresses s) i = Some a ->
                    addr_id a <> addr_id e ->
                    nth_error (addresses s') i = Some a)
    /\ (forall i a, nth_error (addresses s) i = Some a ->
                    addr_id a = addr_id e ->
                    nth_error (addresses s') i
                    = Some (mkAddress (addr_id a) (data_customerId d)
                              (data_line1 d) (data_line2 d) (data_city d)
                              (data_state d) (data_postalCode d)
                              (data_country d) (data_isDefault d)))
    /\ customers s' = customers s
    /\ showAddressForm s' = false /\ editingAddress s' = None
    /\ reads (world_after (handleSaveAddress d) s w) = reads w.
Proof.
  intros e d s w He s'. subst s'. unfold after, world_after.
  rewrite (handleSaveAddress_update_exec e d s w He). simpl.
  split; [|split; [|split]]; auto.
  - rewrite map_map. apply map_ext. intros a.
    destruct (addr_id a =? addr_id e)%string; reflexivity.
  - intros i a Hn Hne. rewrite nth_error_map, Hn. simpl.
    apply String.eqb_neq in Hne. now rewrite Hne.
  - intros i a Hn Heq. rewrite nth_error_map, Hn. simpl.
    apply String.eqb_eq in Heq. now rewrite Heq.
Qed.

Lemma updateAddress_frame_witness :
  nth_error
    (addresses
       (after (handleSaveAddress nagpur_data)
          (after (handleEditAddress mumbai) sample_detail ticking_world)
          ticking_world)) 0 = Some pune.
Proof.
  pose proof (updateAddress_frame mumbai nagpur_data
                (after (handleEditAddress mumbai) sample_detail ticking_world)
                ticking_world eq_refl) as [_ [Hkeep _]].
  apply Hkeep; [reflexivity | discriminate].
Defined.

(** The generic save does not sweep: when the customer has a default address
    [b] and another stored address [a] is edited (Edit, then Save) with form
    data that flag it default for the same customer, the customer has two
    default addresses or more afterward. *)
Theorem updateAddress_can_break_single_default :
  forall (a b : Address) (d : AddressData) (s : State) (w w1 : World)
         (cid : string),
    In a (addresses s) -> In b (addresses s) ->
    addr_id b <> addr_id a ->
    customerId b = cid -> isDefault b = true ->
    data_customerId d = cid -> data_isDefault d = true ->
    (2 <= List.length
            (defaults_of cid
               (addresses
                  (after (handleSaveAddress d)
                     (after (handleEditAddress a) s w) w1))))%nat.
Proof.
  intros a b d s w w1 cid Ha Hb Hne Hcb Hdb Hcd Hdd.
  unfold after at 1.
  rewrite (handleSaveAddress_update_exec a d
             (after (handleEditAddress a) s w) w1 eq_refl).
  cbn [fst addresses].
  change (addresses (after (handleEditAddress a) s w)) with (addresses s).
  set (f := fun addr => if (addr_id addr =? addr_id a)%string
                        then spread_address_update addr d else addr).
  assert (Hfb : f b = b).
  { unfold f. apply String.eqb_neq in Hne. now rewrite Hne. }
  assert (Hpa : (customerId (f a) =? cid)%string && isDefault (f a) = true).
  { unfold f. rewrite String.eqb_refl. simpl.
    rewrite Hcd, Hdd, String.eqb_refl. reflexivity. }
  assert (Hpb : (customerId b =? cid)%string && isDefault b = true).
  { rewrite Hcb, Hdb, String.eqb_refl. reflexivity. }
  destruct (in_split _ _ Hb) as [l1 [l2 Hsplit]].
  rewrite Hsplit in Ha |- *. unfold defaults_of.
  rewrite map_app, filter_app, length_app. cbn [map filter].
  rewrite Hfb, Hpb. cbn [List.length].
  apply in_app_or in Ha. destruct Ha as [Ha | [Ha | Ha]].
  - pose proof (filter_length_In
                  (fun x => (customerId x =? cid)%string && isDefault x)
                  (map f l1) (f a) (in_map f _ _ Ha) Hpa). lia.
  - subst a. contradiction.
  - pose proof (filter_length_In
                  (fun x => (customerId x =? cid)%string && isDefault x)
                  (map f l2) (f a) (in_map f _ _ Ha) Hpa). lia.
Qed.

Lemma updateAddress_can_break_single_default_witness :
  (2 <= List.length
          (defaults_of "1"
             (addresses
                (after (handleSaveAddress nagpur_data)
                   (after (handleEditAddress mumbai) sample_detail
                      ticking_world) ticking_world))))%nat.
Proof.
  apply (updateAddress_can_break_single_default mumbai pune nagpur_data
           sample_detail ticking_world ticking_world "1");
    try reflexivity; try discriminate; simpl; auto.
Defined.

(** Creating an address does not sweep either: the customer's addresses and
    the customer's default addresses afterward are the earlier ones, in
    order, followed by the new address when it belongs to the customer
    (and, for the defaults, is flagged default). *)
Theorem createAddress_appends_to_views :
  forall (d : AddressData) (s : State) (w : World) (cid : string),
    editingAddress s = None ->
    let s' := after (handleSaveAddress d) s w in
    let newAddress := spread_address_new (JS.toString (clock w (reads w))) d in
    customerAddresses cid s'
    = customerAddresses cid s
      ++ (if (data_customerId d =? cid)%string then [newAddress] else [])
    /\ defaults_of cid (addresses s')
       = defaults_of cid (addresses s)
         ++ (if (data_customerId d =? cid)%string && data_isDefault d
             then [newAddress] else []).
Proof.
  intros d s w cid He s' newAddress. subst s' newAddress.
  unfold customerAddresses, defaults_of.
  rewrite (handleSaveAddress_create d s w He), !filter_app. simpl.
  split; reflexivity.
Qed.

Lemma createAddress_appends_to_views_witness :
  List.length
    (defaults_of "1"
       (addresses (after (handleSaveAddress nagpur_data) sample_detail
                     ticking_world))) = 2%nat.
Proof.
  pose proof (createAddress_appends_to_views nagpur_data sample_detail
                ticking_world "1" eq_refl) as [_ H].
  rewrite H. reflexivity.
Defined.

(** A confirmed address deletion keeps exactly the addresses with another id,
    in order and unchanged, and touches no customer. No other address is
    promoted: the customer's defaults afterward are the earlier defaults
    without the deleted id, so deleting the only default leaves none. *)
Theorem deleteAddress_selects :
  forall (addressId : string) (s : State) (w : World) (cid : string),
    let s' := after (handleDeleteAddress true addressId) s w in
    selects (fun a => addr_id a <> addressId) (addresses s) (addresses s')
    /\ customers s' = customers s
    /\ defaults_of cid (addresses s')
       = filter (fun a => negb (addr_id a =? addressId)%string)
           (defaults_of cid (addresses s))
    /\ ((forall a, In a (defaults_of cid (addresses s)) ->
                   addr_id a = addressId) ->
        defaults_of cid (addresses s') = []).
Proof.
  intros addressId s w cid s'. subst s'. simpl.
  assert (Hcomm : defaults_of cid
                    (filter (fun a => negb (addr_id a =? addressId)%string)
                       (addresses s))
                  = filter (fun a => negb (addr_id a =? addressId)%string)
                      (defaults_of cid (addresses s))).
  { unfold defaults_of. induction (addresses s) as [|a l IH];
      [reflexivity|]. simpl.
    destruct (addr_id a =? addressId)%string eqn:E1;
      destruct ((customerId a =? cid)%string && isDefault a) eqn:E2;
      simpl; rewrite ?E1, ?E2; simpl; now rewrite IH. }
  split; [|split; [reflexivity|split]].
  - apply filter_selects. intros a.
    rewrite negb_true_iff. apply String.eqb_neq.
  - exact Hcomm.
  - intros Hall. rewrite Hcomm. apply filter_none. intros a Ha.
    apply negb_false_iff, String.eqb_eq. now apply Hall.
Qed.

(** A declined confirmation changes nothing at all: no collection, no form
    flag, no toast, no navigation, on the detail page and on the list page. *)
Theorem declined_confirmation_is_noop :
  forall (sd : State) (sl : CustomerList.State) (w : World) (x : string),
    exec (handleDeleteAddress false x) sd w = (sd, w)
    /\ exec (handleDeleteCustomer false) sd w = (sd, w)
    /\ exec (CustomerList.handleDeleteCustomer false x) sl w = (sl, w).
Proof. intros. repeat split. Qed.

End AddressHandlers.

(* ================================================================= *)
(** ** Sweeps compose *)

Section SweepComposition.
Import CustomerDetail.

Lemma sweep_default_twice (c : Customer) (x y : string) (l : list Address) :
  sweep_default c y (sweep_default c x l) = sweep_default c y l.
Proof.
  unfold sweep_default. rewrite map_map. apply map_ext. intros a.
  cbn [customerId addr_id isDefault with_isDefault].
  destruct (customerId a =? id c)%string; reflexivity.
Qed.

Lemma sweep_default_commute (c1 c2 : Customer) (x y : string)
  (l : list Address) :
  id c1 <> id c2 ->
  sweep_default c2 y (sweep_default c1 x l)
  = sweep_default c1 x (sweep_default c2 y l).
Proof.
  intros Hne. unfold sweep_default. rewrite !map_map. apply map_ext.
  intros a. cbn [customerId addr_id isDefault with_isDefault].
  destruct (String.eqb_spec (customerId a) (id c1)) as [E1 | E1];
    destruct (String.eqb_spec (customerId a) (id c2)) as [E2 | E2];
    try reflexivity.
  exfalso. apply Hne. congruence.
Qed.

(** The last "set default" wins: setting the default to [x] and then to [y]
    for the same customer leaves the addresses as setting it to [y] alone
    (so repeating a sweep changes nothing); and a sweep changes no field
    but [isDefault]. *)
Theorem setDefaultAddress_last_wins :
  forall (c : Customer) (x y : string) (s : State) (w w1 : World),
    addresses
      (after (handleSetDefaultAddress c y)
         (after (handleSetDefaultAddress c x) s w) w1)
    = addresses (after (handleSetDefaultAddress c y) s w)
    /\ map (fun a => with_isDefault a false)
         (addresses (after (handleSetDefaultAddress c x) s w))
       = map (fun a => with_isDefault a false) (addresses s).
Proof.
  intros c x y s w w1. split.
  - rewrite !handleSetDefaultAddress_addresses. apply sweep_default_twice.
  - rewrite handleSetDefaultAddress_addresses. unfold sweep_default.
    rewrite map_map. apply map_ext. intros a. reflexivity.
Qed.

(** Sweeps for two different customers do not interfere: in either order
    they leave the same addresses. *)
Theorem setDefaultAddress_customers_commute :
  forall (c1 c2 : Customer) (x y : string) (s : State) (w w1 : World),
    id c1 <> id c2 ->
    addresses
      (after (handleSetDefaultAddress c2 y)
         (after (handleSetDefaultAddress c1 x) s w) w1)
    = addresses
        (after (handleSetDefaultAddress c1 x)
           (after (handleSetDefaultAddress c2 y) s w) w1).
Proof.
  intros c1 c2 x y s w w1 Hne.
  rewrite !handleSetDefaultAddress_addresses.
  now apply sweep_default_commute.
Qed.

Lemma setDefaultAddress_customers_commute_witness :
  addresses
    (after (handleSetDefaultAddress ravi "a3")
       (after (handleSetDefaultAddress asha "a2") sample_detail
          ticking_world) ticking_world)
  = addresses
      (after (handleSetDefaultAddress asha "a2")
         (after (handleSetDefaultAddress ravi "a3") sample_detail
            ticking_world) ticking_world).
Proof.
  apply (setDefaultAddress_customers_commute asha ravi "a2" "a3"
           sample_detail ticking_world ticking_world).
  discriminate.
Defined.

End SweepComposition.

(* ================================================================= *)
(** ** Deleting on the list page, and referential integrity *)

Section ListDelete.
Import CustomerList.

(** A confirmed delete on the list page keeps exactly the customers with
    another id and exactly the addresses of other customers, both in order
    and unchanged; the filters, the form and the current page stay as they
    are. *)
Theorem list_deleteCustomer_selects :
  forall (cid : string) (s : State) (w : World),
    let s' := after (handleDeleteCustomer true cid) s w in
    selects (fun c => id c <> cid) (customers s) (customers s')
    /\ selects (fun a => customerId a <> cid) (addresses s) (addresses s')
    /\ searchTerm s' = searchTerm s /\ cityFilter s' = cityFilter s
    /\ stateFilter s' = stateFilter s /\ currentPage s' = currentPage s
    /\ showCustomerForm s' = showCustomerForm s
    /\ editingCustomer s' = editingCustomer s.
Proof.
  intros cid s w s'. subst s'. simpl.
  split; [|split; [|repeat split]].
  - apply filter_selects. intros c. rewrite negb_true_iff.
    apply String.eqb_neq.
  - apply filter_selects. intros a. rewrite negb_true_iff.
    apply String.eqb_neq.
Qed.

Lemma update_effect_ids (target : string) (d : CustomerData) (w : World)
  (prev next : list Customer) (c : Customer) :
  update_effect target d w prev next -> In c prev ->
  exists c', In c' next /\ id c' = id c.
Proof.
  intros [_ [Hkeep [Hhit _]]] Hin.
  destruct (In_nth_error _ _ Hin) as [i Hi].
  destruct (String.eqb_spec (id c) target) as [E | E].
  - destruct (Hhit i c Hi E) as [k [c' [_ [Hn [Hid _]]]]].
    exists c'. split; [eapply nth_error_In; eauto | exact Hid].
  - exists c. split; [|reflexivity].
    eapply nth_error_In. apply (Hkeep i c Hi E).
Qed.

Lemma handleSaveCustomer_create_addresses (d : CustomerData) (s : State)
  (w : World) :
  editingCustomer s = None ->
  addresses (after (handleSaveCustomer d) s w) = addresses s.
Proof.
  intros He. unfold after, exec, handleSaveCustomer, bind, gets.
  rewrite He. reflexivity.
Qed.

(** One action of the list page keeps referential integrity. *)
Lemma step_no_orphans (sw sw' : State * World) (e : Event) :
  step sw e sw' ->
  no_orphans (customers (fst sw)) (addresses (fst sw)) ->
  no_orphans (customers (fst sw')) (addresses (fst sw')).
Proof.
  destruct sw as [s w]. intros [_ Hex] Hinv. subst sw'. cbn [fst snd] in *.
  destruct e; try exact Hinv.
  - (* FormSave *)
    change (fst (exec (handle (FormSave customerData)) s w))
      with (after (handleSaveCustomer customerData) s w).
    destruct (editingCustomer s) as [e|] eqn:He.
    + destruct (list_handleSaveCustomer_update_effect e customerData s w He)
        as [Heff Haddr].
      rewrite Haddr. intros a Ha. destruct (Hinv a Ha) as [c [Hc Hid]].
      destruct (update_effect_ids _ _ _ _ _ c Heff Hc) as [c' [Hc' Hid']].
      exists c'. split; [exact Hc' | congruence].
    + rewrite (handleSaveCustomer_create customerData s w He),
        (handleSaveCustomer_create_addresses customerData s w He).
      intros a Ha. destruct (Hinv a Ha) as [c [Hc Hid]].
      exists c. split; [now right | exact Hid].
  - (* CardDelete *)
    destruct confirmed; [|exact Hinv]. simpl.
    intros a Ha. apply filter_In in Ha. destruct Ha as [Ha Hne].
    destruct (Hinv a Ha) as [c [Hc Hid]]. exists c. split; [|exact Hid].
    apply filter_In. split; [exact Hc|]. now rewrite Hid.
Qed.

(** Referential integrity is an invariant of the list page: when every mock
    address references a mock customer, every address of every state the page
    can reach references a customer of that state. *)
Theorem list_page_keeps_no_orphans :
  forall (mc : list Customer) (ma : list Address) (sw : State * World),
    no_orphans mc ma ->
    reachable mc ma sw ->
    no_orphans (customers (fst sw)) (addresses (fst sw)).
Proof.
  intros mc ma sw Hinit Hr. induction Hr as [w | sw e sw' Hr IH Hstep].
  - exact Hinit.
  - exact (step_no_orphans sw sw' e Hstep IH).
Qed.

End ListDelete.

(* ================================================================= *)
(** ** Timestamps on the list page *)

Section Timestamps.
Import CustomerList.

Lemma timestamps_ok_later (now now' : Z) (l : list Customer) :
  now <= now' -> timestamps_ok now l -> timestamps_ok now' l.
Proof. intros Hle H c Hc. specialize (H c Hc). lia. Qed.

Lemma mapM_update_matching_timestamps {S : Type} (target : string)
  (d : CustomerData) (l : list Customer) :
  forall (s s' : S) (w w' : World) (next : list Customer),
    monotone w ->
    timestamps_ok (clock w (reads w)) l ->
    mapM (update_matching target d) l s w = (next, s', w') ->
    timestamps_ok (clock w' (reads w')) next.
Proof.
  induction l as [|x l IH]; intros s s' w w' next Hm Hok Heq.
  - simpl in Heq. injection Heq as <- <- <-. intros c [].
  - rewrite mapM_cons in Heq.
    assert (Hokl : timestamps_ok (clock w (reads w)) l)
      by (intros c Hc; apply Hok; now right).
    pose proof (Hok x (or_introl eq_refl)) as Hx.
    destruct (String.eqb_spec (id x) target) as [E | E].
    + rewrite (update_matching_hit target d x s w E) in Heq.
      destruct (mapM_update_matching target d l s (tick w))
        as [nx [w1 [Heq1 [[Hclock [Hreads _]] _]]]].
      rewrite Heq1 in Heq. injection Heq as <- <- <-.
      assert (Hm1 : monotone (tick w)) by exact Hm.
      assert (Hok1 : timestamps_ok (clock (tick w) (reads (tick w))) l).
      { apply timestamps_ok_later with (clock w (reads w)); [|exact Hokl].
        apply Hm. simpl. lia. }
      pose proof (IH s s (tick w) w1 nx Hm1 Hok1 Heq1) as Hnx.
      intros c [<- | Hc]; [|now apply Hnx]. simpl.
      simpl in Hclock, Hreads. rewrite Hclock.
      assert (clock w (reads w) <= clock w (reads w1)) by (apply Hm; lia).
      lia.
    + rewrite (update_matching_miss target d x s w E) in Heq.
      destruct (mapM_update_matching target d l s w)
        as [nx [w1 [Heq1 [[Hclock [Hreads _]] _]]]].
      rewrite Heq1 in Heq. injection Heq as <- <- <-.
      pose proof (IH s s w w1 nx Hm Hokl Heq1) as Hnx.
      intros c [<- | Hc]; [|now apply Hnx].
      rewrite Hclock.
      assert (clock w (reads w) <= clock w (reads w1)) by (apply Hm; lia).
      lia.
Qed.

Lemma handleSaveCustomer_update_exec (e : Customer) (d : CustomerData)
  (s : State) (w w1 : World) (next : list Customer) :
  editingCustomer s = Some e ->
  mapM (update_matching (id e) d) (customers s) s w = (next, s, w1) ->
  exec (handleSaveCustomer d) s w
  = (mkState next (addresses s) (searchTerm s) (cityFilter s)
       (stateFilter s) false None (currentPage s),
     mkWorld (clock w1) (reads w1)
       (toasts w1 ++ [mkToast "Customer Updated"
                        "Customer information has been successfully updated."
                        false])
       (location w1)).
Proof.
  intros He Heq. unfold exec, handleSaveCustomer, bind, gets.
  rewrite He, Heq. reflexivity.
Qed.

(** One action keeps the clock, only reads it further, and keeps the
    timestamps in order and in the past. *)
Lemma step_timestamps (sw sw' : State * World) (e : Event) :
  step sw e sw' ->
  monotone (snd sw) ->
  timestamps_ok (clock (snd sw) (reads (snd sw))) (customers (fst sw)) ->
  clock (snd sw') = clock (snd sw)
  /\ timestamps_ok (clock (snd sw') (reads (snd sw'))) (customers (fst sw')).
Proof.
  destruct sw as [s w]. intros [_ Hex] Hm Hok. subst sw'.
  cbn [fst snd] in *.
  destruct e; try (split; [reflexivity | exact Hok]).
  - (* FormSave *)
    cbn [handle]. destruct (editingCustomer s) as [e|] eqn:He.
    + destruct (mapM_update_matching (id e) customerData (customers s) s w)
        as [next [w1 [Heq [[Hclock _] _]]]].
      rewrite (handleSaveCustomer_update_exec e customerData s w w1 next He
                 Heq).
      cbn [fst snd clock reads customers]. split; [exact Hclock|].
      exact (mapM_update_matching_timestamps _ _ _ s s w w1 next Hm Hok Heq).
    + unfold exec, handleSaveCustomer, bind, gets. rewrite He.
      cbn. split; [reflexivity|].
      intros c [<- | Hc].
      * simpl.
        assert (clock w (Datatypes.S (reads w))
                <= clock w (Datatypes.S (Datatypes.S (reads w))))
          by (apply Hm; lia).
        assert (clock w (Datatypes.S (Datatypes.S (reads w)))
                <= clock w (Datatypes.S (Datatypes.S
                                           (Datatypes.S (reads w)))))
          by (apply Hm; lia).
        lia.
      * specialize (Hok c Hc).
        assert (clock w (reads w)
                <= clock w (Datatypes.S (Datatypes.S
                                           (Datatypes.S (reads w)))))
          by (apply Hm; lia).
        lia.
  - (* CardDelete *)
    destruct confirmed; [|split; [reflexivity | exact Hok]].
    cbn. split; [reflexivity|].
    intros c Hc. apply filter_In in Hc. now apply Hok.
Qed.

(** With a clock that never runs backwards and mock customers whose
    timestamps are in order and not after the clock's first reading, every
    customer of every reachable state of the list page has
    [createdAt <= updatedAt], and no timestamp is in the future. *)
Theorem list_page_keeps_timestamps_ordered :
  forall (mc : list Customer) (ma : list Address) (sw : State * World),
    reachable mc ma sw ->
    monotone (snd sw) ->
    timestamps_ok (clock (snd sw) 0) mc ->
    timestamps_ok (clock (snd sw) (reads (snd sw))) (customers (fst sw)).
Proof.
  intros mc ma sw Hr. induction Hr as [w | sw e sw' Hr IH Hstep];
    intros Hm Hmock.
  - cbn [fst snd] in *. apply timestamps_ok_later with (clock w 0);
      [apply Hm; lia | exact Hmock].
  - assert (Hclock : clock (snd sw') = clock (snd sw)).
    { destruct sw as [s w]. destruct Hstep as [_ Hex]. subst sw'.
      cbn [fst snd]. destruct e; try reflexivity.
      - cbn [handle]. destruct (editingCustomer s) as [e|] eqn:He.
        + destruct (mapM_update_matching (id e) customerData (customers s)
                      s w) as [next [w1 [Heq [[Hc _] _]]]].
          rewrite (handleSaveCustomer_update_exec e customerData s w w1 next
                     He Heq). exact Hc.
        + unfold exec, handleSaveCustomer, bind, gets. rewrite He.
          reflexivity.
      - destruct confirmed; reflexivity. }
    assert (Hm' : monotone (snd sw)).
    { intros i j Hij. rewrite <- Hclock. now apply Hm. }
    assert (Hmock' : timestamps_ok (clock (snd sw) 0) mc)
      by (rewrite <- Hclock; exact Hmock).
    exact (proj2 (step_timestamps sw sw' e Hstep Hm' (IH Hm' Hmock'))).
Qed.

End Timestamps.

(* ================================================================= *)
(** ** Pages *)

Section Pages.
Context {A : Type}.
Import CustomerList.

Lemma paginatedCustomers_length (l : list A) (page : Z) :
  1 <= page ->
  Z.of_nat (List.length (paginatedCustomers l page))
  = Z.max 0 (Z.min 6 (Z.of_nat (List.length l) - 6 * (page - 1))).
Proof.
  intros Hp. rewrite paginatedCustomers_window by exact Hp.
  rewrite length_firstn, length_skipn. lia.
Qed.

Lemma page_size_facts (l : list A) (page : Z) :
  1 <= page ->
  (List.length (paginatedCustomers l page) <= 6)%nat
  /\ (paginatedCustomers l page = [] <-> totalPages l < page)
  /\ (page < totalPages l ->
      List.length (paginatedCustomers l page) = 6%nat).
Proof.
  intros Hp.
  pose proof (paginatedCustomers_length l page Hp) as Hlen.
  pose proof (totalPages_is_page_count l) as Ht. unfold is_page_count in Ht.
  split; [lia|]. split; [|lia].
  split.
  - intros E. rewrite E in Hlen. cbn [List.length Z.of_nat] in Hlen. lia.
  - intros Hbeyond. apply length_zero_iff_nil. lia.
Qed.

(** For every page from 1 on: a page holds at most 6 items; it is empty
    exactly when its number is beyond the page count; and every page before
    the last is full. *)
Theorem page_sizes :
  forall (l : list A) (page : Z),
    1 <= page ->
    (List.length (paginatedCustomers l page) <= 6)%nat
    /\ (paginatedCustomers l page = [] <-> totalPages l < page)
    /\ (page < totalPages l ->
        List.length (paginatedCustomers l page) = 6%nat).
Proof.
  intros l page Hp. destruct (page_size_facts l page Hp) as [H1 [H2 H3]].
  split; [exact H1|]. split; [exact H2 | exact H3].
Qed.

Lemma windows_cover (n : nat) :
  forall l : list A,
    (List.length l <= 6 * n)%nat ->
    flat_map (fun i => firstn 6 (skipn (6 * i) l)) (seq 0 n) = l.
Proof.
  induction n as [|n IH]; intros l Hlen.
  - destruct l; [reflexivity | simpl in Hlen; lia].
  - cbn [seq flat_map]. rewrite <- seq_shift, flat_map_concat_map, map_map,
      <- flat_map_concat_map.
    rewrite (flat_map_ext _ (fun i => firstn 6 (skipn (6 * i) (skipn 6 l)))).
    + rewrite IH by (rewrite length_skipn; lia).
      replace (6 * 0)%nat with 0%nat by lia. cbn [skipn].
      apply firstn_skipn.
    + intros i. rewrite skipn_skipn. f_equal. f_equal. lia.
Qed.

(** The numbered buttons are the pages from 1 to [totalPages], and the pages
    they open, one after the other, are the whole sequence: every item is on
    exactly one page, in order. *)
Theorem page_buttons_cover :
  forall l : list A,
    (forall p, In p (page_buttons (totalPages l)) <-> 1 <= p <= totalPages l)
    /\ flat_map (paginatedCustomers l) (page_buttons (totalPages l)) = l.
Proof.
  intros l. split.
  { intros p. unfold page_buttons, Array_from. rewrite in_map_iff. split.
    - intros [i [<- Hi]]. apply in_seq in Hi. lia.
    - intros Hp. exists (Z.to_nat (p - 1)). split; [lia|].
      apply in_seq. lia. }
  unfold page_buttons, Array_from.
  rewrite flat_map_concat_map, map_map, <- flat_map_concat_map.
  rewrite (flat_map_ext _ (fun i => firstn 6 (skipn (6 * i) l))).
  - apply windows_cover.
    pose proof (totalPages_is_page_count l) as Ht.
    unfold is_page_count in Ht. lia.
  - intros i. rewrite paginatedCustomers_window by lia.
    f_equal. f_equal. lia.
Qed.

End Pages.

Lemma page_sizes_witness :
  CustomerList.paginatedCustomers thirteen 4 = []
  <-> CustomerList.totalPages thirteen < 4.
Proof.
  apply (page_sizes thirteen 4). lia.
Defined.

Section Navigation.
Import CustomerList.

Lemma rendered_page_in_range (s : State) :
  1 <= currentPage s ->
  pagination_rendered s = true ->
  currentPage s <= totalPages (filtered_of s)
  /\ 1 < totalPages (filtered_of s).
Proof.
  intros Hp Hr. unfold pagination_rendered in Hr.
  apply andb_true_iff in Hr. destruct Hr as [Hne Hmany].
  apply Z.ltb_lt in Hmany. split; [|exact Hmany].
  apply negb_true_iff, Nat.eqb_neq in Hne.
  destruct (Z_le_gt_dec (currentPage s) (totalPages (filtered_of s)))
    as [Hle | Hgt]; [exact Hle|].
  exfalso. apply Hne. unfold paginated_of.
  destruct (page_size_facts (filtered_of s) (currentPage s) Hp)
    as [_ [Hempty _]].
  rewrite (proj2 Hempty); [reflexivity | lia].
Qed.

Lemma pagination_rendered_in_range (s : State) :
  1 <= currentPage s <= totalPages (filtered_of s) ->
  1 < totalPages (filtered_of s) ->
  pagination_rendered s = true.
Proof.
  intros Hp Hmany. unfold pagination_rendered.
  apply andb_true_iff. split; [|now apply Z.ltb_lt].
  apply negb_true_iff, Nat.eqb_neq. intros E.
  apply length_zero_iff_nil in E. unfold paginated_of in E.
  destruct (page_size_facts (filtered_of s) (currentPage s) (proj1 Hp))
    as [_ [Hempty _]].
  apply Hempty in E. lia.
Qed.

(** From a page number that is at least 1 (as it always is): where "Next" is
    offered it moves exactly one page forward, to a page that exists, and
    "Previous" is then offered and leads back; where "Previous" is offered it
    moves exactly one page back and stays at 1 or above. *)
Theorem pagination_navigation :
  forall (s : State) (w w1 : World),
    1 <= currentPage s ->
    (enabled s ClickNext = true ->
     let s' := after (handle ClickNext) s w in
     currentPage s' = currentPage s + 1
     /\ currentPage s' <= totalPages (filtered_of s')
     /\ enabled s' ClickPrevious = true
     /\ currentPage (after (handle ClickPrevious) s' w1) = currentPage s)
    /\ (enabled s ClickPrevious = true ->
        let s' := after (handle ClickPrevious) s w in
        currentPage s' = currentPage s - 1 /\ 1 <= currentPage s').
Proof.
  intros s w w1 Hp. split.
  - intros Hen s'. cbn [enabled] in Hen. apply andb_true_iff in Hen.
    destruct Hen as [Hr Hne]. apply negb_true_iff, Z.eqb_neq in Hne.
    destruct (rendered_page_in_range s Hp Hr) as [Hle Hmany].
    assert (Hf : filtered_of s' = filtered_of s) by reflexivity.
    assert (Hpage : currentPage s' = currentPage s + 1).
    { subst s'. cbn. lia. }
    split; [exact Hpage|]. rewrite Hf. split; [lia|]. split.
    + cbn [enabled]. apply andb_true_iff. split.
      * apply pagination_rendered_in_range; rewrite ?Hf; lia.
      * apply negb_true_iff, Z.eqb_neq. lia.
    + change (currentPage (after (handle ClickPrevious) s' w1))
        with (Z.max 1 (currentPage s' - 1)). lia.
  - intros Hen s'. cbn [enabled] in Hen. apply andb_true_iff in Hen.
    destruct Hen as [_ Hne]. apply negb_true_iff, Z.eqb_neq in Hne.
    subst s'. cbn. lia.
Qed.

Lemma pagination_navigation_witness :
  currentPage
    (after (handle ClickPrevious) (after (handle ClickNext) seven_list
                                     ticking_world) ticking_world) = 1.
Proof.
  pose proof (pagination_navigation seven_list ticking_world ticking_world
                ltac:(cbn; lia)) as [Hnext _].
  destruct (Hnext eq_refl) as [_ [_ [_ Hback]]]. exact Hback.
Defined.

(** Clearing the filters shows the first six customers of the whole
    collection: afterward nothing is filtered out and the page is the
    first. Neither collection changes. *)
Theorem clearFilters_shows_first_page :
  forall (s : State) (w : World),
    let s' := after handleClearFilters s w in
    filtered_of s' = customers s
    /\ paginated_of s' = firstn 6 (customers s)
    /\ customers s' = customers s /\ addresses s' = addresses s.
Proof.
  intros s w s'. subst s'.
  assert (Hf : filtered_of (after handleClearFilters s w) = customers s).
  { change (filteredCustomers (customers s) (addresses s) "" "" ""
            = customers s).
    apply filteredCustomers_no_filter. }
  split; [exact Hf|]. split; [|split; reflexivity].
  unfold paginated_of. rewrite Hf.
  change (currentPage (after handleClearFilters s w)) with 1.
  rewrite paginatedCustomers_window by lia. reflexivity.
Qed.

End Navigation.

(* ================================================================= *)
(** ** Facets and filters together *)

Section FacetOptions.
Import CustomerList.

Lemma cities_In (addresses : list Address) (f : string) :
  In f (cities addresses) <-> exists a, In a addresses /\ city a = f.
Proof.
  unfold cities. destruct (distinct_sorted (map city addresses))
    as [_ [_ Hin]].
  rewrite Hin, in_map_iff. split; intros [a [H1 H2]]; eauto.
Qed.

Lemma states_In (addresses : list Address) (f : string) :
  In f (states addresses) <-> exists a, In a addresses /\ state a = f.
Proof.
  unfold states. destruct (distinct_sorted (map state addresses))
    as [_ [_ Hin]].
  rewrite Hin, in_map_iff. split; intros [a [H1 H2]]; eauto.
Qed.

(** When every address references a customer of the collection, each option
    of the city facet, picked alone, selects at least one customer, and so
    does each option of the state facet. A city (or state) that is not an
    option, other than the empty text and "all", selects nobody, whatever the
    other filters. *)
Theorem facet_options_select :
  forall (customers : list Customer) (addresses : list Address) (f : string),
    no_orphans customers addresses ->
    (In f (cities addresses) ->
     filteredCustomers customers addresses "" f "" <> [])
    /\ (In f (states addresses) ->
        filteredCustomers customers addresses "" "" f <> [])
    /\ (f <> "" -> f <> "all" -> ~ In f (cities addresses) ->
        forall t sf, filteredCustomers customers addresses t f sf = [])
    /\ (f <> "" -> f <> "all" -> ~ In f (states addresses) ->
        forall t cf, filteredCustomers customers addresses t cf f = []).
Proof.
  intros customers addresses f Hno. split; [|split; [|split]].
  - intros Hf. apply cities_In in Hf. destruct Hf as [a [Ha Hc]].
    destruct (Hno a Ha) as [c [Hc' Hid]].
    assert (Hin : In c (filteredCustomers customers addresses "" f "")).
    { apply filter_In. split; [exact Hc'|].
      rewrite !andb_true_iff. split; [split; [reflexivity|] | reflexivity].
      apply matchesCity_iff. right; right. exists a.
      unfold owned_by. auto. }
    intros E. rewrite E in Hin. destruct Hin.
  - intros Hf. apply states_In in Hf. destruct Hf as [a [Ha Hc]].
    destruct (Hno a Ha) as [c [Hc' Hid]].
    assert (Hin : In c (filteredCustomers customers addresses "" "" f)).
    { apply filter_In. split; [exact Hc'|].
      rewrite !andb_true_iff. split; [split; reflexivity|].
      apply matchesState_iff. right; right. exists a.
      unfold owned_by. auto. }
    intros E. rewrite E in Hin. destruct Hin.
  - intros H1 H2 Hnot t sf. apply filter_none. intros c _.
    apply andb_false_iff. left. apply andb_false_iff. right.
    destruct (matchesCity addresses f c) eqn:E; [|reflexivity].
    apply matchesCity_iff in E.
    destruct E as [E | [E | [a [[Ha _] Hc]]]]; try contradiction.
    exfalso. apply Hnot. apply cities_In. eauto.
  - intros H1 H2 Hnot t cf. apply filter_none. intros c _.
    apply andb_false_iff. right.
    destruct (matchesState addresses f c) eqn:E; [|reflexivity].
    apply matchesState_iff in E.
    destruct E as [E | [E | [a [[Ha _] Hc]]]]; try contradiction.
    exfalso. apply Hnot. apply states_In. eauto.
Qed.

Lemma facet_options_select_witness :
  filteredCustomers [asha; ravi] [pune; mumbai; delhi] "" "Mumbai" "" <> [].
Proof.
  assert (Hno : no_orphans [asha; ravi] [pune; mumbai; delhi]).
  { intros a [<- | [<- | [<- | []]]];
      [exists asha | exists asha | exists ravi]; simpl; auto. }
  apply (proj1 (facet_options_select [asha; ravi] [pune; mumbai; delhi]
                  "Mumbai" Hno)).
  vm_compute. auto.
Defined.

End FacetOptions.

(* ================================================================= *)
(** ** Searching phone numbers without letters *)

Section PlainPhones.
Import CustomerList.












End PlainPhones.

(* ================================================================= *)
(** ** The customer in view on the detail page *)

Section CustomerInView.
Import CustomerDetail.

Lemma mapM_update_matching_find {S : Type} (t : string) (d : CustomerData)
  (l : list Customer) :
  forall (s : S) (w : World) (c : Customer),
    find (fun x => (id x =? t)%string) l = Some c ->
    exists next w',
      mapM (update_matching t d) l s w = (next, s, w')
      /\ find (fun x => (id x =? t)%string) next
         = Some (spread_customer_update c d
                   (toISOString (clock w (reads w)))).
Proof.
  induction l as [|x l IH]; intros s w c Hfind; [discriminate|].
  rewrite mapM_cons. cbn [find] in Hfind.
  destruct (String.eqb_spec (id x) t) as [E | E].
  - injection Hfind as <-.
    rewrite (update_matching_hit t d x s w E).
    destruct (mapM_update_matching t d l s (tick w))
      as [nx [w1 [Heq _]]].
    rewrite Heq. eexists. eexists. split; [reflexivity|].
    cbn [find spread_customer_update id].
    apply String.eqb_eq in E. now rewrite E.
  - rewrite (update_matching_miss t d x s w E).
    destruct (IH s w c Hfind) as [nx [w1 [Heq Hf]]].
    rewrite Heq. exists (x :: nx), w1. split; [reflexivity|].
    cbn [find]. apply String.eqb_neq in E. now rewrite E.
Qed.

(** Updating the customer the detail page shows never loses it: the page
    finds, under the same route id, the customer with the form data merged
    in, [id] and [createdAt] kept, and [updatedAt] set to the first clock
    reading of the handler; the customer form is closed. *)
Theorem detail_update_keeps_customer_in_view :
  forall (route : string) (c : Customer) (d : CustomerData) (s : State)
         (w : World),
    customer route s = Some c ->
    let s' := after (handleUpdateCustomer c d) s w in
    exists c',
      customer route s' = Some c'
      /\ merged c d (clock w (reads w)) c'
      /\ showCustomerForm s' = false.
Proof.
  intros route c d s w Hc s'. subst s'. unfold customer in Hc.
  assert (Hid : id c = route).
  { apply find_some in Hc. destruct Hc as [_ Hc].
    now apply String.eqb_eq in Hc. }
  destruct (mapM_update_matching_find route d (customers s) s w c Hc)
    as [next [w1 [Heq Hfind]]].
  exists (spread_customer_update c d (toISOString (clock w (reads w)))).
  unfold after, exec, handleUpdateCustomer, bind, gets.
  rewrite Hid, Heq. cbn. split; [exact Hfind|].
  split; [apply merged_spread | reflexivity].
Qed.

Lemma detail_update_keeps_customer_in_view_witness :
  exists c',
    customer "1"
      (after (handleUpdateCustomer asha rename_data) sample_detail
         ticking_world) = Some c'
    /\ merged asha rename_data 1700000001000 c'
    /\ showCustomerForm
         (after (handleUpdateCustomer asha rename_data) sample_detail
            ticking_world) = false.
Proof.
  apply (detail_update_keeps_customer_in_view "1" asha rename_data
           sample_detail ticking_world).
  reflexivity.
Defined.

End CustomerInView.

(* ================================================================= *)
(** ** Deleting the last customer of the last page *)

Section StalePage.
Import CustomerList.

Lemma filter_split_length {A : Type} (p : A -> bool) (l : list A) :
  (List.length (filter p l) + List.length (filter (fun x => negb (p x)) l)
   = List.length l)%nat.
Proof.
  induction l as [|x l IH]; [reflexivity|]. simpl.
  destruct (p x); simpl; lia.
Qed.

Lemma getCustomerAddresses_after_delete (addrs : list Address)
  (cid x : string) :
  x <> cid ->
  getCustomerAddresses
    (filter (fun a => negb (customerId a =? cid)%string) addrs) x
  = getCustomerAddresses addrs x.
Proof.
  intros Hne. unfold getCustomerAddresses.
  induction addrs as [|a l IH]; [reflexivity|]. simpl.
  destruct (String.eqb_spec (customerId a) cid) as [E | E]; simpl.
  - rewrite IH. destruct (String.eqb_spec (customerId a) x) as [E' | E'];
      [|reflexivity].
    exfalso. apply Hne. congruence.
  - now rewrite IH.
Qed.

Lemma filteredCustomers_after_delete (cs : list Customer)
  (addrs : list Address) (cid t cf sf : string) :
  filteredCustomers
    (filter (fun c => negb (id c =? cid)%string) cs)
    (filter (fun a => negb (customerId a =? cid)%string) addrs) t cf sf
  = filter (fun c => negb (id c =? cid)%string)
      (filteredCustomers cs addrs t cf sf).
Proof.
  unfold filteredCustomers. induction cs as [|c l IH]; [reflexivity|].
  simpl. destruct (String.eqb_spec (id c) cid) as [E | E]; simpl.
  - rewrite IH.
    destruct (matchesSearch t c && matchesCity addrs cf c
              && matchesState addrs sf c); simpl; [|reflexivity].
    apply String.eqb_eq in E. now rewrite E.
  - unfold matchesCity at 1, matchesState at 1.
    rewrite !(getCustomerAddresses_after_delete addrs cid (id c) E).
    fold (matchesCity addrs cf c). fold (matchesState addrs sf c).
    destruct (matchesSearch t c && matchesCity addrs cf c
              && matchesState addrs sf c); simpl.
    + apply String.eqb_neq in E. rewrite E. simpl. now rewrite IH.
    + exact IH.
Qed.

(** Deleting a customer does not move the current page. When the current
    page (2 or later) shows one customer only, the only filtered customer
    with its id, a confirmed delete of it leaves the page number where it
    was, now beyond the last page: the "No customers found" card is shown
    although the filters still match 6 * (page - 1) customers. *)
Theorem delete_last_of_page_shows_empty_state :
  forall (s : State) (w : World) (c : Customer),
    2 <= currentPage s ->
    paginated_of s = [c] ->
    with_id (id c) (filtered_of s) = [c] ->
    let s' := after (handleDeleteCustomer true (id c)) s w in
    currentPage s' = currentPage s
    /\ shows_empty_state s' = true
    /\ Z.of_nat (List.length (filtered_of s')) = 6 * (currentPage s - 1)
    /\ filtered_of s' <> [].
Proof.
  intros s w c Hp Hpage Hone s'.
  assert (Hf : filtered_of s'
               = filter (fun x => negb (id x =? id c)%string)
                   (filtered_of s)).
  { subst s'. unfold filtered_of. cbn. apply filteredCustomers_after_delete. }
  assert (Hlen : Z.of_nat (List.length (filtered_of s))
                 = 6 * (currentPage s - 1) + 1).
  { pose proof (paginatedCustomers_length (filtered_of s) (currentPage s)
                  ltac:(lia)) as H.
    unfold paginated_of in Hpage. rewrite Hpage in H.
    cbn [List.length Z.of_nat] in H. lia. }
  assert (Hlen' : Z.of_nat (List.length (filtered_of s'))
                  = 6 * (currentPage s - 1)).
  { rewrite Hf.
    pose proof (filter_split_length (fun x => (id x =? id c)%string)
                  (filtered_of s)) as H.
    unfold with_id in Hone. rewrite Hone in H. simpl in H. lia. }
  split; [reflexivity|]. split; [|split; [exact Hlen'|]].
  - unfold shows_empty_state, paginated_of.
    change (currentPage s') with (currentPage s).
    destruct (page_size_facts (filtered_of s') (currentPage s) ltac:(lia))
      as [_ [Hempty _]].
    rewrite (proj2 Hempty); [reflexivity|].
    pose proof (totalPages_is_page_count (filtered_of s')) as Ht.
    unfold is_page_count in Ht. lia.
  - intros E. rewrite E in Hlen'. cbn [List.length Z.of_nat] in Hlen'. lia.
Qed.

Lemma delete_last_of_page_shows_empty_state_witness :
  shows_empty_state
    (after (handleDeleteCustomer true "7")
       (after (handle (ClickPage 2)) seven_list ticking_world)
       ticking_world) = true.
Proof.
  pose proof (delete_last_of_page_shows_empty_state
                (after (handle (ClickPage 2)) seven_list ticking_world)
                ticking_world
                (mkCustomer "7" "Customer" "Seven" "0000000000"
                   (toISOString 0) (toISOString 0))
                ltac:(cbn; lia) eq_refl eq_refl) as [_ [H _]].
  exact H.
Defined.

End StalePage.

(* ================================================================= *)
(** ** Generated ids *)

Section GeneratedIds.

Lemma to_int_not_nil (n : Z) :
  Z.to_int n <> Decimal.Pos Decimal.Nil
  /\ Z.to_int n <> Decimal.Neg Decimal.Nil.
Proof.
  destruct n as [|p|p]; simpl; split; try discriminate;
    intros [= H]; exact (DecimalPos.Unsigned.to_uint_nonnil p H).
Qed.

(** The decimal rendering tells integers apart. *)
Lemma toString_inj (n m : Z) : JS.toString n = JS.toString m -> n = m.
Proof.
  unfold JS.toString. intros H. apply DecimalZ.to_int_inj.
  destruct (to_int_not_nil n) as [Hn1 Hn2].
  destruct (to_int_not_nil m) as [Hm1 Hm2].
  pose proof (NilZero.isi _ Hn1 Hn2) as En.
  pose proof (NilZero.isi _ Hm1 Hm2) as Em.
  rewrite H in En. congruence.
Qed.

(** Ids come from the clock alone. Two customers created one after the other
    get the same id exactly when the clock shows the same millisecond at the
    first reading of each creation (three readings apart); two addresses
    created one after the other, exactly when two successive readings show
    the same millisecond. Nothing checks an id against the ids in use. *)
Theorem generated_ids_collide_iff_same_millisecond :
  forall (d1 d2 : CustomerData) (a1 a2 : AddressData)
         (sl : CustomerList.State) (sd : CustomerDetail.State) (w : World),
    CustomerList.editingCustomer sl = None ->
    CustomerDetail.editingAddress sd = None ->
    (exists c1 c2,
        CustomerList.customers
          (after (CustomerList.handleSaveCustomer d2)
             (after (CustomerList.handleSaveCustomer d1) sl w)
             (world_after (CustomerList.handleSaveCustomer d1) sl w))
        = c2 :: c1 :: CustomerList.customers sl
        /\ (id c1 = id c2
            <-> clock w (reads w) = clock w (3 + reads w)%nat))
    /\ (exists b1 b2,
           CustomerDetail.addresses
             (after (CustomerDetail.handleSaveAddress a2)
                (after (CustomerDetail.handleSaveAddress a1) sd w)
                (world_after (CustomerDetail.handleSaveAddress a1) sd w))
           = CustomerDetail.addresses sd ++ [b1; b2]
           /\ (addr_id b1 = addr_id b2
               <-> clock w (reads w) = clock w (1 + reads w)%nat)).
Proof.
  intros d1 d2 a1 a2 sl sd w Hl Hd. split.
  - unfold after, world_after, exec, CustomerList.handleSaveCustomer, bind,
      gets. rewrite Hl. cbn.
    eexists. eexists. split; [reflexivity|]. cbn [id spread_customer_new].
    split; [apply toString_inj | intros ->; reflexivity].
  - unfold after, world_after, exec, CustomerDetail.handleSaveAddress, bind,
      gets. rewrite Hd. cbn. rewrite <- app_assoc. cbn [app].
    eexists. eexists. split; [reflexivity|].
    cbn [addr_id spread_address_new spread_address_update].
    split; [apply toString_inj | intros ->; reflexivity].
Qed.

Lemma generated_ids_collide_iff_same_millisecond_witness :
  exists b1 b2,
    CustomerDetail.addresses
      (after (CustomerDetail.handleSaveAddress nagpur_data)
         (after (CustomerDetail.handleSaveAddress nagpur_data) sample_detail
            ticking_world)
         (world_after (CustomerDetail.handleSaveAddress nagpur_data)
            sample_detail ticking_world))
    = CustomerDetail.addresses sample_detail ++ [b1; b2]
    /\ (addr_id b1 = addr_id b2
        <-> clock ticking_world (reads ticking_world)
            = clock ticking_world (1 + reads ticking_world)%nat).
Proof.
  apply (proj2 (generated_ids_collide_iff_same_millisecond
                  new_customer_data new_customer_data nagpur_data
                  nagpur_data sample_list sample_detail ticking_world
                  eq_refl eq_refl)).
Defined.

End GeneratedIds.

(* ================================================================= *)
(** ** The customer form of the list page *)

Section CustomerForm.
Import CustomerList.

(** While the form is closed no customer is being edited. *)
Lemma closed_form_edits_nobody (mc : list Customer) (ma : list Address)
  (sw : State * World) :
  reachable mc ma sw ->
  showCustomerForm (fst sw) = false -> editingCustomer (fst sw) = None.
Proof.
  induction 1 as [w | [s w] e sw' Hr IH [Hen Hex]]; [reflexivity|].
  subst sw'. cbn [fst snd] in *.
  destruct e; cbn; try exact IH; try discriminate; try reflexivity.
  - (* FormSave *)
    intros _. unfold exec, handleSaveCustomer, bind, gets.
    destruct (editingCustomer s) as [e|].
    + destruct (mapM_update_matching (id e) customerData (customers s) s w)
        as [next [w1 [Heq _]]].
      rewrite Heq. reflexivity.
    + reflexivity.
  - (* CardDelete *)
    destruct confirmed; exact IH.
Qed.

(** "Add Customer" on a closed form, then Save, always creates: whatever was
    edited or cancelled before, the collection gains exactly one customer, put
    first, with a freshly generated id, and every earlier customer is kept as
    it was. *)
Theorem add_then_save_creates :
  forall (mc : list Customer) (ma : list Address) (s : State) (w w1 : World)
         (d : CustomerData),
    reachable mc ma (s, w) ->
    showCustomerForm s = false ->
    let s1 := after (handle ClickAddCustomer) s w in
    let s2 := after (handle (FormSave d)) s1 w1 in
    enabled s1 (FormSave d) = true
    /\ (exists c, customers s2 = c :: customers s
                  /\ id c = JS.toString (clock w1 (reads w1)))
    /\ addresses s2 = addresses s
    /\ showCustomerForm s2 = false /\ editingCustomer s2 = None.
Proof.
  intros mc ma s w w1 d Hr Hclosed s1 s2.
  pose proof (closed_form_edits_nobody mc ma (s, w) Hr Hclosed) as He.
  cbn [fst] in He.
  assert (He1 : editingCustomer s1 = None) by exact He.
  split; [reflexivity|]. subst s2. cbn [handle].
  split; [|split; [|split]].
  - rewrite (handleSaveCustomer_create d s1 w1 He1).
    eexists. split; reflexivity.
  - now rewrite (handleSaveCustomer_create_addresses d s1 w1 He1).
  - unfold after, exec, handleSaveCustomer, bind, gets. rewrite He1.
    reflexivity.
  - unfold after, exec, handleSaveCustomer, bind, gets. rewrite He1.
    reflexivity.
Qed.

Lemma add_then_save_creates_witness :
  exists c,
    customers
      (after (handle (FormSave new_customer_data))
         (after (handle ClickAddCustomer)
            (after (handle FormCancel)
               (after (handle (CardEdit asha)) sample_list ticking_world)
               ticking_world)
            ticking_world)
         ticking_world)
    = c :: [asha; ravi]
    /\ id c = "1700000001000".
Proof.
  assert (Hr : reachable [asha; ravi] [pune; mumbai; delhi]
                 (after (handle FormCancel)
                    (after (handle (CardEdit asha)) sample_list
                       ticking_world) ticking_world,
                  ticking_world)).
  { apply (reach_step _ _
             (after (handle (CardEdit asha)) sample_list ticking_world,
              ticking_world) FormCancel).
    - apply (reach_step _ _ (sample_list, ticking_world) (CardEdit asha)).
      + apply reach_init.
      + split; reflexivity.
    - split; reflexivity. }
  exact (proj1 (proj2 (add_then_save_creates _ _ _ ticking_world
                         ticking_world new_customer_data Hr eq_refl))).
Defined.

End CustomerForm.

(* ================================================================= *)
(** ** The invariants at sample states *)

Lemma currentPage_positive_witness :
  1 <= CustomerList.currentPage
         (fst (exec (CustomerList.handle (CustomerList.ClickPage 2))
                 seven_list ticking_world)).
Proof.
  apply (currentPage_positive seven_customers []).
  apply (CustomerList.reach_step _ _ (seven_list, ticking_world)
           (CustomerList.ClickPage 2)).
  - apply CustomerList.reach_init.
  - split; reflexivity.
Defined.

Lemma list_page_keeps_no_orphans_witness :
  no_orphans
    (CustomerList.customers
       (fst (exec (CustomerList.handle (CustomerList.CardDelete asha true))
               sample_list ticking_world)))
    (CustomerList.addresses
       (fst (exec (CustomerList.handle (CustomerList.CardDelete asha true))
               sample_list ticking_world))).
Proof.
  apply (list_page_keeps_no_orphans [asha; ravi] [pune; mumbai; delhi]).
  - intros a [<- | [<- | [<- | []]]];
      [exists asha | exists asha | exists ravi]; simpl; auto.
  - apply (CustomerList.reach_step _ _ (sample_list, ticking_world)
             (CustomerList.CardDelete asha true)).
    + apply CustomerList.reach_init.
    + split; reflexivity.
Defined.

Lemma list_page_keeps_timestamps_ordered_witness :
  timestamps_ok 1700000001003
    (CustomerList.customers
       (fst (exec (CustomerList.handle
                     (CustomerList.FormSave new_customer_data))
               (after (CustomerList.handle CustomerList.ClickAddCustomer)
                  sample_list ticking_world)
               ticking_world))).
Proof.
  apply (list_page_keeps_timestamps_ordered [asha; ravi]
           [pune; mumbai; delhi]
           (exec (CustomerList.handle
                    (CustomerList.FormSave new_customer_data))
              (after (CustomerList.handle CustomerList.ClickAddCustomer)
                 sample_list ticking_world)
              ticking_world)).
  - apply (CustomerList.reach_step _ _
             (after (CustomerList.handle CustomerList.ClickAddCustomer)
                sample_list ticking_world, ticking_world)
             (CustomerList.FormSave new_customer_data)).
    + apply (CustomerList.reach_step _ _ (sample_list, ticking_world)
               CustomerList.ClickAddCustomer).
      * apply CustomerList.reach_init.
      * split; reflexivity.
    + split; reflexivity.
  - intros i j Hij.
    change (1700000001000 + Z.of_nat i <= 1700000001000 + Z.of_nat j). lia.
  - intros c Hc.
    change (getTime (createdAt c) <= getTime (updatedAt c)
            <= 1700000001000 + 0).
    destruct Hc as [<- | [<- | []]]; unfold asha, ravi, getTime, createdAt,
      updatedAt; lia.
Defined.
